(** * MemoryApp: client-side memory store synchronisation and sorting

    A shallow embedding of [frontend/src/MemoryApp.tsx] (the current
    revision of the component, the first one in the source file) and the
    verification of its store-merging, sorting, location-editing and
    keyword-extraction logic.

    Conventions of the embedding:
    - a JavaScript number is a [number]: NaN, the two infinities, or a
      finite value carried as a rational.  The program only ever inspects
      the sign of a difference of two numbers and strict equality; IEEE 754
      rounding preserves both (a difference of two distinct finite doubles
      is never rounded to zero), so the exact difference is used;
    - a JavaScript string is carried as the [string] of the bytes of its
      UTF-8 form, so that every code point of the string can be written,
      the white space above U+00FF included; equality, emptiness,
      concatenation and the search for a substring are the same on the
      UTF-8 form and on the code units of a well-formed string;
    - the React state of the component is the record [AppState]; a handler
      is a computation in the monad [Handler], which threads the state and
      the log of issued requests and may throw. *)

From Stdlib Require Import Ascii QArith Lqa.
From stdpp Require Import base list sorting gmap strings.

Set Warnings "-register-all".
Local Close Scope Q_scope.
Local Open Scope stdpp_scope.

(** ** JavaScript numbers *)

Inductive number : Type :=
| NaN
| NegInfinity
| Finite (q : Q)
| PosInfinity.

(** [a - b] on numbers. *)
Definition num_sub (a b : number) : number :=
  match a, b with
  | NaN, _ | _, NaN => NaN
  | PosInfinity, PosInfinity => NaN
  | NegInfinity, NegInfinity => NaN
  | PosInfinity, _ => PosInfinity
  | NegInfinity, _ => NegInfinity
  | Finite _, PosInfinity => NegInfinity
  | Finite _, NegInfinity => PosInfinity
  | Finite x, Finite y => Finite (x - y)%Q
  end.

(** [a === b] on numbers: NaN differs from everything, itself included. *)
Definition num_strict_eq (a b : number) : bool :=
  match a, b with
  | NegInfinity, NegInfinity => true
  | PosInfinity, PosInfinity => true
  | Finite x, Finite y => Qeq_bool x y
  | _, _ => false
  end.

(** ToBoolean on a number: zero and NaN are falsy. *)
Definition num_truthy (a : number) : bool :=
  match a with
  | NaN => false
  | Finite q => negb (Qeq_bool q 0)
  | _ => true
  end.

(** The sign of a number as a sort comparator result; a NaN result is
    read as [+0] by [Array.prototype.sort]. *)
Definition num_sign (a : number) : comparison :=
  match a with
  | NaN => Eq
  | NegInfinity => Lt
  | Finite q => (q ?= 0)%Q
  | PosInfinity => Gt
  end.

(** The order of the extended number line on numbers other than NaN;
    NaN is related to nothing. *)
Definition num_le (a b : number) : Prop :=
  match a, b with
  | NaN, _ | _, NaN => False
  | NegInfinity, _ => True
  | _, PosInfinity => True
  | Finite x, Finite y => (x <= y)%Q
  | _, _ => False
  end.

(** Numeric equality of numbers other than NaN. *)
Definition num_eq (a b : number) : Prop := num_strict_eq a b = true.

#[global] Instance num_eq_dec (a b : number) : Decision (num_eq a b) :=
  decide (num_strict_eq a b = true).

Definition one : number := Finite 1.

(** ** JavaScript strings *)

Definition str_truthy (s : string) : bool :=
  match s with
  | EmptyString => false
  | String _ _ => true
  end.

Fixpoint str_drop (n : nat) (s : string) : string :=
  match n, s with
  | S n', String _ r => str_drop n' r
  | _, _ => s
  end.

(** The UTF-8 form of a code point. *)
Definition utf8 (code_point : N) : string :=
  let lead (marker n : N) := Ascii.ascii_of_N (marker + n) in
  let continuation (n : N) := Ascii.ascii_of_N (0x80 + n mod 64) in
  if (code_point <? 0x80)%N then
    String (lead 0%N code_point) EmptyString
  else if (code_point <? 0x800)%N then
    String (lead 0xC0%N (code_point / 64)%N)
      (String (continuation code_point) EmptyString)
  else if (code_point <? 0x10000)%N then
    String (lead 0xE0%N (code_point / 4096)%N)
      (String (continuation (code_point / 64)%N)
         (String (continuation code_point) EmptyString))
  else
    String (lead 0xF0%N (code_point / 262144)%N)
      (String (continuation (code_point / 4096)%N)
         (String (continuation (code_point / 64)%N)
            (String (continuation code_point) EmptyString))).

(** The UTF-8 form of a sequence of code points. *)
Definition utf8_string (code_points : list N) : string :=
  foldr (λ code_point s, utf8 code_point +:+ s) EmptyString code_points.

(** WhiteSpace and LineTerminator of ECMAScript, the code points that
    [String.prototype.trim] strips: TAB, LF, VT, FF, CR, SP, NBSP, U+1680,
    U+2000 to U+200A, LS, PS, U+202F, U+205F, U+3000 and ZWNBSP. *)
Definition white_space : list N :=
  [0x9; 0xA; 0xB; 0xC; 0xD; 0x20; 0xA0; 0x1680;
   0x2000; 0x2001; 0x2002; 0x2003; 0x2004; 0x2005; 0x2006; 0x2007; 0x2008;
   0x2009; 0x200A; 0x2028; 0x2029; 0x202F; 0x205F; 0x3000; 0xFEFF]%N.

(** The text after the white space code point that [s] starts with, if
    it starts with one. *)
Definition strip_white_space (s : string) : option string :=
  (λ code_point, str_drop (String.length (utf8 code_point)) s)
  <$> List.find (λ code_point, String.prefix (utf8 code_point) s) white_space.

(** [String.prototype.trimStart]; every step removes at least one byte, so
    the length of the string is fuel enough ([trimStart_unfold]). *)
Fixpoint trimStart_within (fuel : nat) (s : string) : string :=
  match fuel with
  | O => s
  | S fuel' =>
      match strip_white_space s with
      | Some r => trimStart_within fuel' r
      | None => s
      end
  end.

Definition trimStart (s : string) : string :=
  trimStart_within (String.length s) s.

(** [s] is made of white space code points only (the empty string
    included); the length of the string is fuel enough
    ([all_white_space_unfold]). *)
Fixpoint all_white_space_within (fuel : nat) (s : string) : bool :=
  match s, fuel with
  | EmptyString, _ => true
  | _, O => false
  | _, S fuel' =>
      match strip_white_space s with
      | Some r => all_white_space_within fuel' r
      | None => false
      end
  end.

Definition all_white_space (s : string) : bool :=
  all_white_space_within (String.length s) s.

(** [String.prototype.trimEnd]: the text up to the first position from
    which only white space follows. *)
Fixpoint trimEnd (s : string) : string :=
  if all_white_space s then EmptyString
  else match s with
       | EmptyString => EmptyString
       | String c r => String c (trimEnd r)
       end.

(** [String.prototype.trim]. *)
Definition trim (s : string) : string := trimEnd (trimStart s).


(** The first occurrence of [pat] in [s]: the text before it and the text
    after it. *)
Fixpoint split_first (pat s : string) : option (string * string) :=
  if String.prefix pat s then Some (EmptyString, str_drop (String.length pat) s)
  else match s with
       | EmptyString => None
       | String c r =>
           match split_first pat r with
           | Some (before, after) => Some (String c before, after)
           | None => None
           end
       end.

(** GetSubstitution of ECMAScript for a string pattern (no capture
    groups): in the replacement template [$$] stands for a dollar sign,
    [$&] for the matched text, [$`] for the text before the match and
    [$'] for the text after it; every other character, a dollar sign
    followed by anything else included, stands for itself. *)
Fixpoint GetSubstitution (matched before after template : string) : string :=
  match template with
  | EmptyString => EmptyString
  | String "$"%char (String "$"%char r) =>
      String "$"%char (GetSubstitution matched before after r)
  | String "$"%char (String "&"%char r) =>
      matched +:+ GetSubstitution matched before after r
  | String "$"%char (String "`"%char r) =>
      before +:+ GetSubstitution matched before after r
  | String "$"%char (String "'"%char r) =>
      after +:+ GetSubstitution matched before after r
  | String c r => String c (GetSubstitution matched before after r)
  end.

(** [s.replace(pat, replacement)] with a string pattern: only the first
    occurrence is replaced. *)
Definition String_replace (s pat replacement : string) : string :=
  match split_first pat s with
  | None => s
  | Some (before, after) =>
      before +:+ GetSubstitution pat before after replacement +:+ after
  end.

(** ** [Array.prototype.sort]

    The comparator returns a number; the sort reads its sign, a NaN as
    zero.  ECMAScript requires the sort to be stable, which leaves one
    result for every consistent comparator ([Array_sort_unique] below):
    such are the comparators of the weight and of the relevance criterion,
    and that of the date criterion on a store whose dates the host parses
    all, or parses none.  For a comparator that is not consistent (the
    date criterion on a store of which the host parses some dates and not
    others) the order is implementation-defined: the insertion sort here
    is one implementation, the result of the host is another rearrangement
    of the same records, and an order of the store is stated for
    consistent comparators only. *)
Section ArraySort.
Context {A : Type} (comparefn : A → A → number).

Fixpoint sort_insert (x : A) (l : list A) : list A :=
  match l with
  | [] => [x]
  | y :: l' =>
      match num_sign (comparefn x y) with
      | Gt => y :: sort_insert x l'
      | _ => x :: l
      end
  end.

Fixpoint Array_sort (l : list A) : list A :=
  match l with
  | [] => []
  | x :: l' => sort_insert x (Array_sort l')
  end.

(** [a] may stay before [b]: the comparator does not ask for a swap. *)
Definition keeps_before (a b : A) : Prop := num_sign (comparefn a b) ≠ Gt.

End ArraySort.

(** The comparator ties [a] and [b]: it asks for no swap either way. *)
Definition tied {A} (comparefn : A → A → number) (a b : A) : Prop :=
  keeps_before comparefn a b ∧ keeps_before comparefn b a.

#[global] Instance keeps_before_dec {A} (comparefn : A → A → number) (a b : A)
    : Decision (keeps_before comparefn a b).
Proof. unfold keeps_before. apply _. Defined.

#[global] Instance tied_dec {A} (comparefn : A → A → number) (a b : A)
    : Decision (tied comparefn a b).
Proof. unfold tied. apply _. Defined.

(** ** JavaScript values of a parsed response body *)

Inductive value : Type :=
| VUndefined
| VNull
| VBoolean (b : bool)
| VNumber (n : number)
| VString (s : string)
| VArray (items : list value)
| VObject (props : gmap string value).

Definition ToBoolean (v : value) : bool :=
  match v with
  | VUndefined | VNull => false
  | VBoolean b => b
  | VNumber n => num_truthy n
  | VString s => str_truthy s
  | VArray _ | VObject _ => true
  end.

(** [typeof v === 'string'] *)
Definition is_string (v : value) : bool :=
  match v with VString _ => true | _ => false end.

(** [Array.isArray(v)] *)
Definition isArray (v : value) : bool :=
  match v with VArray _ => true | _ => false end.

(** [v === 'lit'] for a string literal. *)
Definition is_string_literal (lit : string) (v : value) : bool :=
  match v with VString s => bool_decide (s = lit) | _ => false end.

(** [v.key] for the keys the component reads ([keywords], [narrative_text],
    [text], [type]), none of which is defined by a built-in prototype:
    [None] is the TypeError of reading a property of undefined or null;
    an object yields its own property or undefined, every other value
    undefined. *)
Definition member (v : value) (key : string) : option value :=
  match v with
  | VUndefined | VNull => None
  | VObject props => Some (default VUndefined (props !! key))
  | _ => Some VUndefined
  end.

(** ** The data model of the component *)

Record Memory : Type := {
  id : number;
  title : string;
  location : string;
  date : string;
  keywords : option (list string);
  type : string;
  description : option string;
  weight : option number;
  filename : option string;
  image_url : option string;
  original_path : option string;
  processed_path : option string;
  openai_keywords : option (list string);
  openai_description : option string;
  impact_weight : option number;
  detected_objects : option (list string);
  relevance_score : option number
}.

(** The [updatedMemory] argument of a location update, a record of the
    backend: each field is an own property of the object or is absent. *)
Module Partial.
Record t : Type := {
  id : option number;
  title : option string;
  location : option string;
  date : option string;
  keywords : option (list string);
  type : option string;
  description : option string;
  weight : option number;
  filename : option string;
  image_url : option string;
  original_path : option string;
  processed_path : option string;
  openai_keywords : option (list string);
  openai_description : option string;
  impact_weight : option number;
  detected_objects : option (list string);
  relevance_score : option number
}.
End Partial.

Inductive SortOption : Type := ByWeight | ByDate | ByRelevance.

Inductive MemoryType : Type := User | Public.

(** [x || d] for an optional number [x]. *)
Definition num_or (x : option number) (d : option number) : option number :=
  match x with
  | Some n => if num_truthy n then Some n else d
  | None => d
  end.

(** [x || d] for an optional array [x]: an array is always truthy. *)
Definition array_or {A} (x d : option (list A)) : option (list A) :=
  match x with
  | Some l => Some l
  | None => d
  end.

(** A property of [{...memory, ...updatedMemory}]: the later spread wins
    where it has the property. *)
Definition spread_req {A} (base : A) (over : option A) : A :=
  default base over.

Definition spread_opt {A} (base over : option A) : option A :=
  match over with
  | Some x => Some x
  | None => base
  end.

(** [{...memory, ...updatedMemory, weight: updatedMemory.impact_weight ||
    memory.weight, keywords: updatedMemory.openai_keywords ||
    memory.keywords}] *)
Definition merge_updated (memory : Memory) (updated : Partial.t) : Memory :=
  {| id := spread_req (id memory) (Partial.id updated);
     title := spread_req (title memory) (Partial.title updated);
     location := spread_req (location memory) (Partial.location updated);
     date := spread_req (date memory) (Partial.date updated);
     keywords := array_or (Partial.openai_keywords updated) (keywords memory);
     type := spread_req (type memory) (Partial.type updated);
     description :=
       spread_opt (description memory) (Partial.description updated);
     weight := num_or (Partial.impact_weight updated) (weight memory);
     filename := spread_opt (filename memory) (Partial.filename updated);
     image_url := spread_opt (image_url memory) (Partial.image_url updated);
     original_path :=
       spread_opt (original_path memory) (Partial.original_path updated);
     processed_path :=
       spread_opt (processed_path memory) (Partial.processed_path updated);
     openai_keywords :=
       spread_opt (openai_keywords memory) (Partial.openai_keywords updated);
     openai_description :=
       spread_opt (openai_description memory)
         (Partial.openai_description updated);
     impact_weight :=
       spread_opt (impact_weight memory) (Partial.impact_weight updated);
     detected_objects :=
       spread_opt (detected_objects memory) (Partial.detected_objects updated);
     relevance_score :=
       spread_opt (relevance_score memory) (Partial.relevance_score updated) |}.

(** [{...memory, location: l, title: t}] *)
Definition with_location_title (memory : Memory) (l t : string) : Memory :=
  {| id := id memory; title := t; location := l; date := date memory;
     keywords := keywords memory; type := type memory;
     description := description memory; weight := weight memory;
     filename := filename memory; image_url := image_url memory;
     original_path := original_path memory;
     processed_path := processed_path memory;
     openai_keywords := openai_keywords memory;
     openai_description := openai_description memory;
     impact_weight := impact_weight memory;
     detected_objects := detected_objects memory;
     relevance_score := relevance_score memory |}.

(** [{...memory, weight: w, impact_weight: iw}] *)
Definition with_weights (memory : Memory) (w iw : option number) : Memory :=
  {| id := id memory; title := title memory; location := location memory;
     date := date memory; keywords := keywords memory; type := type memory;
     description := description memory; weight := w;
     filename := filename memory; image_url := image_url memory;
     original_path := original_path memory;
     processed_path := processed_path memory;
     openai_keywords := openai_keywords memory;
     openai_description := openai_description memory;
     impact_weight := iw;
     detected_objects := detected_objects memory;
     relevance_score := relevance_score memory |}.

(** [{...memory, weight: w}] *)
Definition with_weight (memory : Memory) (w : option number) : Memory :=
  with_weights memory w (impact_weight memory).

Definition Unknown_Location : string := "Unknown Location".

(** The callback of [prevMemories.map] in [handleLocationUpdate]. *)
Definition updateLocationOf (memoryId : number) (newLocation : string)
    (updatedMemory : option Partial.t) (memory : Memory) : Memory :=
  if num_strict_eq (id memory) memoryId then
    match updatedMemory with
    | Some updated => merge_updated memory updated
    | None =>
        with_location_title memory newLocation
          (if bool_decide (location memory = Unknown_Location)
           then newLocation +:+ " - " +:+ date memory
           else String_replace (title memory) (location memory) newLocation)
    end
  else memory.

(** The state updater that [handleLocationUpdate] hands to [setMemories]. *)
Definition handleLocationUpdate_updater (memoryId : number)
    (newLocation : string) (updatedMemory : option Partial.t)
    (prevMemories : list Memory) : list Memory :=
  updateLocationOf memoryId newLocation updatedMemory <$> prevMemories.

(** The effective weight [m.weight || 1.0] of the weight comparator. *)
Definition weight_or_one (m : Memory) : number :=
  match weight m with
  | Some w => if num_truthy w then w else one
  | None => one
  end.

(** ** Keyword extraction of [generateNarrative]

    The callbacks run in the option monad, [None] being a TypeError. *)

(** [kw => kw && (typeof kw === 'string' || (kw.type === 'primary'))] *)
Definition keyword_filter (kw : value) : option bool :=
  if ToBoolean kw then
    if is_string kw then Some true
    else tag ← member kw "type"; Some (is_string_literal "primary" tag)
  else Some false.

(** [kw => typeof kw === 'string' ? kw : kw.text] *)
Definition keyword_map (kw : value) : option value :=
  if is_string kw then Some kw else member kw "text".

(** [Array.prototype.filter] with a callback that may throw. *)
Fixpoint Array_filter {A} (callback : A → option bool) (l : list A)
    : option (list A) :=
  match l with
  | [] => Some []
  | x :: l' =>
      keep ← callback x;
      rest ← Array_filter callback l';
      Some (if keep : bool then x :: rest else rest)
  end.

(** [keywords.filter(...).map(...)] *)
Definition extract_keywords (items : list value) : option (list value) :=
  kept ← Array_filter keyword_filter items;
  mapM keyword_map kept.

(** ** The component state and its handlers *)

Record AppState : Type := {
  memories : list Memory;
  narrative : value;
  searchTerm : string;
  error : option string;
  loading : bool;
  memoryType : MemoryType;
  highlightedKeywords : list value;
  sortBy : SortOption;
  resetMessage : option string
}.

(** The state of a freshly mounted component. *)
Definition initial_state : AppState :=
  {| memories := []; narrative := VString EmptyString;
     searchTerm := EmptyString; error := None; loading := false;
     memoryType := User; highlightedKeywords := [];
     sortBy := ByWeight; resetMessage := None |}.

(** A thrown value: an [Error] instance with its message, or anything else. *)
Inductive thrown : Type :=
| ErrorObject (message : string)
| NotAnError.

(** [err instanceof Error ? err.message : 'An unknown error occurred'] *)
Definition error_message (err : thrown) : string :=
  match err with
  | ErrorObject message => message
  | NotAnError => "An unknown error occurred"
  end.

(** The requests the component sends through its HTTP client. *)
Inductive Request : Type :=
| GetSearch (session_id query : string) (memory_type : MemoryType)
    (sort_by : SortOption)
| GetNarrative (session_id query : string) (memory_type : MemoryType)
| PostAdjustWeight (memory_id : number) (session_id : string)
    (adjustment : number).

(** The body of an [adjust_weight] response. *)
Record AdjustResponse : Type := { new_weight : option number }.

(** What a handler finds around it: the [session] parameter of the page
    URL, the backend behind the HTTP client (a rejected request is a thrown
    value) and the message the host puts in a TypeError. *)
Record Env : Type := {
  url_session : option string;
  backend_search : Request → thrown + list Memory;
  backend_narrative : Request → thrown + value;
  backend_adjust_weight : Request → thrown + AdjustResponse;
  TypeError_message : string
}.

Inductive outcome (A : Type) : Type :=
| Returned (a : A)
| Threw (err : thrown).
Arguments Returned {A} a.
Arguments Threw {A} err.

(** A handler run: from the environment, the component state and the log
    of requests sent so far to an outcome, the new state and the new log. *)
Definition Handler (A : Type) : Type :=
  Env → AppState → list Request → outcome A * AppState * list Request.

#[global] Instance Handler_ret : MRet Handler :=
  λ A a, λ _ st log, (Returned a, st, log).

#[global] Instance Handler_bind : MBind Handler :=
  λ A B f m, λ env st log,
    match m env st log with
    | (Returned a, st', log') => f a env st' log'
    | (Threw err, st', log') => (Threw err, st', log')
    end.

Definition throw {A} (err : thrown) : Handler A :=
  λ _ st log, (Threw err, st, log).

(** [try { body } catch (err) { handler } finally { final }] *)
Definition try_catch_finally (body : Handler unit)
    (handler : thrown → Handler unit) (final : Handler unit) : Handler unit :=
  λ env st log,
    let '(r, st1, log1) :=
      match body env st log with
      | (Threw err, st', log') => handler err env st' log'
      | completed => completed
      end in
    match final env st1 log1 with
    | (Returned _, st2, log2) => (r, st2, log2)
    | thrown_in_final => thrown_in_final
    end.

(** [try { body } catch (err) { handler }] *)
Definition try_catch (body : Handler unit) (handler : thrown → Handler unit)
    : Handler unit :=
  try_catch_finally body handler (mret ()).

(** The state the handler closed over when it was rendered.  The handler
    that runs is the one of the latest render, so this is the state at the
    start of the run. *)
Definition render_closure : Handler AppState :=
  λ _ st log, (Returned st, st, log).

Definition getSessionId : Handler (option string) :=
  λ env st log, (Returned (url_session env), st, log).

Definition modify (f : AppState → AppState) : Handler unit :=
  λ _ st log, (Returned (), f st, log).

(** The state with one slot replaced. *)
Definition state_with_memories (st : AppState) (l : list Memory) : AppState :=
  {| memories := l; narrative := narrative st;
     searchTerm := searchTerm st; error := error st; loading := loading st;
     memoryType := memoryType st;
     highlightedKeywords := highlightedKeywords st; sortBy := sortBy st;
     resetMessage := resetMessage st |}.

Definition state_with_narrative (st : AppState) (v : value) : AppState :=
  {| memories := memories st; narrative := v;
     searchTerm := searchTerm st; error := error st; loading := loading st;
     memoryType := memoryType st;
     highlightedKeywords := highlightedKeywords st; sortBy := sortBy st;
     resetMessage := resetMessage st |}.

Definition state_with_error (st : AppState) (e : option string) : AppState :=
  {| memories := memories st; narrative := narrative st;
     searchTerm := searchTerm st; error := e; loading := loading st;
     memoryType := memoryType st;
     highlightedKeywords := highlightedKeywords st; sortBy := sortBy st;
     resetMessage := resetMessage st |}.

Definition state_with_loading (st : AppState) (b : bool) : AppState :=
  {| memories := memories st; narrative := narrative st;
     searchTerm := searchTerm st; error := error st; loading := b;
     memoryType := memoryType st;
     highlightedKeywords := highlightedKeywords st; sortBy := sortBy st;
     resetMessage := resetMessage st |}.

Definition state_with_highlightedKeywords (st : AppState) (k : list value)
    : AppState :=
  {| memories := memories st; narrative := narrative st;
     searchTerm := searchTerm st; error := error st; loading := loading st;
     memoryType := memoryType st;
     highlightedKeywords := k; sortBy := sortBy st;
     resetMessage := resetMessage st |}.

Definition state_with_sortBy (st : AppState) (o : SortOption) : AppState :=
  {| memories := memories st; narrative := narrative st;
     searchTerm := searchTerm st; error := error st; loading := loading st;
     memoryType := memoryType st;
     highlightedKeywords := highlightedKeywords st; sortBy := o;
     resetMessage := resetMessage st |}.

(** The setters of [useState]; [setMemories] takes a state updater, a
    constant function when the source passes a value. *)
Definition setMemories (update : list Memory → list Memory) : Handler unit :=
  modify (λ st, state_with_memories st (update (memories st))).

Definition setNarrative (v : value) : Handler unit :=
  modify (λ st, state_with_narrative st v).

Definition setError (e : option string) : Handler unit :=
  modify (λ st, state_with_error st e).

Definition setLoading (b : bool) : Handler unit :=
  modify (λ st, state_with_loading st b).

Definition setHighlightedKeywords (k : list value) : Handler unit :=
  modify (λ st, state_with_highlightedKeywords st k).

Definition setSortBy (o : SortOption) : Handler unit :=
  modify (λ st, state_with_sortBy st o).

(** [await api.get(...)] and [await api.post(...)]: the request is logged,
    then the backend answers or the client rejects. *)
Definition api_call {A} (endpoint : Env → Request → thrown + A)
    (req : Request) : Handler A :=
  λ env st log,
    match endpoint env req with
    | inl err => (Threw err, st, log ++ [req])
    | inr data => (Returned data, st, log ++ [req])
    end.

(** [v.key] inside a handler. *)
Definition read_member (v : value) (key : string) : Handler value :=
  λ env st log,
    match member v key with
    | Some x => (Returned x, st, log)
    | None => (Threw (ErrorObject (TypeError_message env)), st, log)
    end.

Definition or_throw {A} (x : option A) : Handler A :=
  λ env st log,
    match x with
    | Some a => (Returned a, st, log)
    | None => (Threw (ErrorObject (TypeError_message env)), st, log)
    end.

Definition no_session_message : string :=
  "No session ID found. Please start over from the upload page.".

Definition no_search_term_message : string := "Please enter a search term".

(** [!sessionId]: the parameter is absent or empty. *)
Definition session_missing (sessionId : option string) : bool :=
  match sessionId with
  | Some s => negb (str_truthy s)
  | None => true
  end.

(** The callback of [prevMemories.map] in [handleIncreaseWeight]. *)
Definition increased (response : AdjustResponse) (memory_id : number)
    (memory : Memory) : Memory :=
  if num_strict_eq (id memory) memory_id
  then with_weights memory (new_weight response) (new_weight response)
  else memory.

(** The callback of [prevMemories.map] in [handleDecreaseWeight]. *)
Definition decreased (response : AdjustResponse) (memory_id : number)
    (memory : Memory) : Memory :=
  if num_strict_eq (id memory) memory_id
  then with_weight memory (new_weight response)
  else memory.

Section Sorting.
(** [new Date(s).getTime()]: the date parser of the host, NaN on a string
    it does not accept. *)
Variable Date_getTime : string → number.

(** The comparator of [sortMemories]. *)
Definition compareMemories (sortOption : SortOption) (a b : Memory)
    : number :=
  match sortOption with
  | ByWeight => num_sub (weight_or_one b) (weight_or_one a)
  | ByDate => num_sub (Date_getTime (date b)) (Date_getTime (date a))
  | ByRelevance => Finite 0
  end.

(** [[...memoriesToSort].sort(...)] as a function of the array contents. *)
Definition sortMemories (memoriesToSort : list Memory)
    (sortOption : SortOption) : list Memory :=
  Array_sort (compareMemories sortOption) memoriesToSort.

Definition searchMemories : Handler unit :=
  closure ← render_closure;
  if negb (str_truthy (trim (searchTerm closure))) then
    setError (Some no_search_term_message)
  else
    setLoading true;;
    setError None;;
    try_catch_finally
      (sessionId ← getSessionId;
       if session_missing sessionId
       then throw (ErrorObject no_session_message)
       else
         data ← api_call backend_search
                  (GetSearch (default EmptyString sessionId)
                     (searchTerm closure) (memoryType closure)
                     (sortBy closure));
         setMemories (λ _, data))
      (λ err, setError (Some (error_message err)))
      (setLoading false).

Definition generateNarrative : Handler unit :=
  closure ← render_closure;
  if negb (str_truthy (trim (searchTerm closure))) then
    setError (Some no_search_term_message)
  else
    setLoading true;;
    setError None;;
    try_catch_finally
      (sessionId ← getSessionId;
       if session_missing sessionId
       then throw (ErrorObject no_session_message)
       else
         narrativeData ← api_call backend_narrative
                           (GetNarrative (default EmptyString sessionId)
                              (searchTerm closure) (memoryType closure));
         narrative_text ← read_member narrativeData "narrative_text";
         (if ToBoolean narrative_text then setNarrative narrative_text
          else
            text ← read_member narrativeData "text";
            if ToBoolean text then setNarrative text
            else setNarrative (VString EmptyString));;
         listed ← read_member narrativeData "keywords";
         keywords ← (if ToBoolean listed && isArray listed
                     then match listed with
                          | VArray items => or_throw (extract_keywords items)
                          | _ => mret []
                          end
                     else mret []);
         setHighlightedKeywords keywords)
      (λ err, setError (Some (error_message err)))
      (setLoading false).

(** The state updater of [handleIncreaseWeight]. *)
Definition increaseWeight_updater (sortOption : SortOption)
    (memory_id : number) (response : AdjustResponse)
    (prevMemories : list Memory) : list Memory :=
  sortMemories (increased response memory_id <$> prevMemories) sortOption.

(** The state updater of [handleDecreaseWeight]. *)
Definition decreaseWeight_updater (sortOption : SortOption)
    (memory_id : number) (response : AdjustResponse)
    (prevMemories : list Memory) : list Memory :=
  sortMemories (decreased response memory_id <$> prevMemories) sortOption.

Definition handleIncreaseWeight (memory_id : number) : Handler unit :=
  closure ← render_closure;
  sessionId ← getSessionId;
  if session_missing sessionId then setError (Some no_session_message)
  else
    try_catch
      (response ← api_call backend_adjust_weight
                    (PostAdjustWeight memory_id
                       (default EmptyString sessionId) (Finite (1 # 10)));
       setMemories
         (increaseWeight_updater (sortBy closure) memory_id response))
      (λ _, setError (Some "Failed to increase memory weight")).

Definition handleDecreaseWeight (memory_id : number) : Handler unit :=
  closure ← render_closure;
  sessionId ← getSessionId;
  if session_missing sessionId then setError (Some no_session_message)
  else
    try_catch
      (response ← api_call backend_adjust_weight
                    (PostAdjustWeight memory_id
                       (default EmptyString sessionId) (Finite (- 1 # 10)));
       setMemories
         (decreaseWeight_updater (sortBy closure) memory_id response))
      (λ _, setError (Some "Failed to decrease memory weight")).

Definition handleLocationUpdate (memoryId : number) (newLocation : string)
    (updatedMemory : option Partial.t) : Handler unit :=
  setMemories (handleLocationUpdate_updater memoryId newLocation updatedMemory).

Definition handleSortChange (newSortOption : SortOption) : Handler unit :=
  closure ← render_closure;
  setSortBy newSortOption;;
  if bool_decide (0 < length (memories closure))
  then setMemories (λ prevMemories, sortMemories prevMemories newSortOption)
  else mret ().

(** *** [sortMemories] on array objects

    Arrays are objects: [sort] reorders its receiver in place and returns
    it, and the spread [[...a]] allocates a new array.  The heap maps the
    reference of an array to its contents. *)

(** [[...a]] *)
Definition array_spread (heap : gmap positive (list Memory)) (a : positive)
    : option (gmap positive (list Memory) * positive) :=
  contents ← heap !! a;
  let copy := fresh (dom heap) in
  Some (<[copy := contents]> heap, copy).

(** [a.sort(comparefn)] *)
Definition array_sort_in_place (comparefn : Memory → Memory → number)
    (heap : gmap positive (list Memory)) (a : positive)
    : option (gmap positive (list Memory) * positive) :=
  contents ← heap !! a;
  Some (<[a := Array_sort comparefn contents]> heap, a).

Definition sortMemories_ref (heap : gmap positive (list Memory))
    (memoriesToSort : positive) (sortOption : SortOption)
    : option (gmap positive (list Memory) * positive) :=
  '(heap1, copy) ← array_spread heap memoriesToSort;
  array_sort_in_place (compareMemories sortOption) heap1 copy.

End Sorting.

(** ** The orderings the specification speaks of *)

(** The weight of a record, 1.0 where the record has none. *)
Definition weight_or_default (m : Memory) : number := default one (weight m).

(** [l] is in descending order of [key]. *)
Definition descending_by (key : Memory → number) (l : list Memory) : Prop :=
  StronglySorted (λ a b, num_le (key b) (key a)) l.

(** The records of [l] whose [key] equals [w], in the order of [l]. *)
Definition with_key (key : Memory → number) (w : number) (l : list Memory)
    : list Memory :=
  filter (λ m, num_eq (key m) w) l.

(** [l'] keeps the records of equal [key] in the relative order they have
    in [l]. *)
Definition stable_by (key : Memory → number) (l l' : list Memory) : Prop :=
  ∀ w, with_key key w l' = with_key key w l.

(** ** The keyword entries the specification speaks of *)

(** An object entry is tagged "primary". *)
Definition tagged_primary (props : gmap string value) : bool :=
  is_string_literal "primary" (default VUndefined (props !! "type")).

(** The text field of an object entry, undefined where it has none. *)
Definition text_field (props : gmap string value) : value :=
  default VUndefined (props !! "text").

(** The contribution of an entry as the specification words it: a plain
    string contributes itself, an entry tagged "primary" its text field,
    every other entry nothing. *)
Definition keyword_as_specified (kw : value) : option value :=
  match kw with
  | VString _ => Some kw
  | VObject props =>
      if tagged_primary props then Some (text_field props) else None
  | _ => None
  end.

(** The contribution of an entry in the component: as specified, except
    that the empty string contributes nothing. *)
Definition keyword_contribution (kw : value) : option value :=
  match kw with
  | VString s => if str_truthy s then Some kw else None
  | VObject props =>
      if tagged_primary props then Some (text_field props) else None
  | _ => None
  end.

(** ** The title rewrite the specification speaks of *)

(** [title] with its first occurrence of [old] replaced by [new], taken
    as it is; [title] itself where [old] does not occur. *)
Definition replace_first_occurrence (title old new : string) : string :=
  match split_first old title with
  | None => title
  | Some (before, after) => before +:+ new +:+ after
  end.

(** [s] holds no dollar sign. *)
Fixpoint no_dollar (s : string) : bool :=
  match s with
  | EmptyString => true
  | String c r => negb (Ascii.eqb c "$") && no_dollar r
  end.

(** ** Sample records, environments and states *)

Definition sample (i : Q) (t l d : string) (w : option number) : Memory :=
  {| id := Finite i; title := t; location := l; date := d; keywords := None;
     type := "user"; description := None; weight := w; filename := None;
     image_url := None; original_path := None; processed_path := None;
     openai_keywords := None; openai_description := None;
     impact_weight := None; detected_objects := None;
     relevance_score := None |}.

Definition paris : Memory :=
  sample 1 "Paris - 2020-05-01" "Paris" "2020-05-01" (Some (Finite (1 # 2))).

Definition oslo : Memory :=
  sample 2 "Oslo - 2021-07-15" "Oslo" "2021-07-15" (Some (Finite 0)).

Definition nowhere : Memory :=
  sample 3 "Holiday" "Unknown Location" "2019-12-24" None.

(** A host whose date parser accepts no string. *)
Definition no_dates (s : string) : number := NaN.

(** A backend that answers every search with [data], every narrative
    request with [story] and every weight adjustment with [adjusted]. *)
Definition answering (session : option string) (data : list Memory)
    (story : value) (adjusted : AdjustResponse) : Env :=
  {| url_session := session;
     backend_search := λ _, inr data;
     backend_narrative := λ _, inr story;
     backend_adjust_weight := λ _, inr adjusted;
     TypeError_message := "Cannot read properties of null" |}.

(** A backend that rejects every request with a network error. *)
Definition unreachable (session : option string) : Env :=
  {| url_session := session;
     backend_search := λ _, inl (ErrorObject "Network Error");
     backend_narrative := λ _, inl (ErrorObject "Network Error");
     backend_adjust_weight := λ _, inl (ErrorObject "Network Error");
     TypeError_message := "Cannot read properties of null" |}.

(** The component after the user typed [term] and a search filled the
    store with [l]. *)
Definition searched (term : string) (l : list Memory) : AppState :=
  {| memories := l; narrative := VString EmptyString; searchTerm := term;
     error := None; loading := false; memoryType := User;
     highlightedKeywords := []; sortBy := ByWeight; resetMessage := None |}.

(** A full record of the backend for the record [oslo], moved to Rome. *)
Definition oslo_in_rome : Partial.t :=
  {| Partial.id := Some (Finite 2); Partial.title := Some "Rome - 2021-07-15";
     Partial.location := Some "Rome"; Partial.date := Some "2021-07-15";
     Partial.keywords := None; Partial.type := Some "user";
     Partial.description := None; Partial.weight := None;
     Partial.filename := None; Partial.image_url := None;
     Partial.original_path := None; Partial.processed_path := None;
     Partial.openai_keywords := Some ["rome"; "summer"];
     Partial.openai_description := None;
     Partial.impact_weight := Some (Finite (3 # 2));
     Partial.detected_objects := None; Partial.relevance_score := None |}.

(** The answer of the backend to an adjustment: the new weight is 1.1. *)
Definition adjusted_to_1_1 : AdjustResponse :=
  {| new_weight := Some (Finite (11 # 10)) |}.

(** A narrative answer whose keyword list holds an empty string, a plain
    string, a null, a number, a secondary entry and two primary entries. *)
Definition story_keywords : list value :=
  [ VString EmptyString; VString "cat"; VNull; VNumber (Finite 3);
    VObject (<["type" := VString "secondary"]> {["text" := VString "mat"]});
    VObject (<["type" := VString "primary"]> {["text" := VString "dog"]});
    VObject {["type" := VString "primary"]} ].

Definition story_props : gmap string value :=
  <["text" := VString "The cat sat on the mat"]>
    {["keywords" := VArray story_keywords]}.

Definition story : value := VObject story_props.

(** The requests that raise and lower the weight of [paris]. *)
Definition raise_paris : Request :=
  PostAdjustWeight (Finite 1) "s1" (Finite (1 # 10)).

Definition lower_paris : Request :=
  PostAdjustWeight (Finite 1) "s1" (Finite (- 1 # 10)).

(** The page of session "s1" with a backend that answers. *)
Definition online : Env :=
  answering (Some "s1") [paris; oslo] story adjusted_to_1_1.

(** ** [getThumbnailUrl] *)

Definition default_backend_url : string := "http://localhost:8000".

Definition placeholder_image : string := "/placeholder-image.jpg".

(** [x || d] for an optional string [x]. *)
Definition str_or (x : option string) (d : string) : string :=
  match x with
  | Some s => if str_truthy s then s else d
  | None => d
  end.

(** ToBoolean on an optional string. *)
Definition opt_str_truthy (x : option string) : bool :=
  match x with
  | Some s => str_truthy s
  | None => false
  end.

(** [getThumbnailUrl(memory)]; [REACT_APP_BACKEND_URL] is the variable of
    that name in [process.env], the session is read from the page URL. *)
Definition getThumbnailUrl (REACT_APP_BACKEND_URL : option string) (env : Env)
    (memory : Memory) : string :=
  if opt_str_truthy (image_url memory) then
    str_or REACT_APP_BACKEND_URL default_backend_url
      +:+ default EmptyString (image_url memory)
  else if negb (opt_str_truthy (filename memory)) then placeholder_image
  else if session_missing (url_session env) then placeholder_image
  else
    str_or REACT_APP_BACKEND_URL default_backend_url
      +:+ "/api/static_content/" +:+ default EmptyString (url_session env)
      +:+ "/" +:+ type memory
      +:+ "/" +:+ default EmptyString (filename memory).

(** ** [handleResetComplete] *)

(** The answer of the reset-weights endpoint, as the reset button hands it
    to [onResetComplete]. *)
Record ResetData : Type := {
  status : string;
  updated_count : number;
  message : option string
}.

(** A callback handed to [setTimeout] with its delay in milliseconds. *)
Record Timer : Type := {
  delay_ms : N;
  on_fire : Handler unit
}.

Definition state_with_resetMessage (st : AppState) (m : option string)
    : AppState :=
  {| memories := memories st; narrative := narrative st;
     searchTerm := searchTerm st; error := error st; loading := loading st;
     memoryType := memoryType st;
     highlightedKeywords := highlightedKeywords st; sortBy := sortBy st;
     resetMessage := m |}.

Definition setResetMessage (m : option string) : Handler unit :=
  modify (λ st, state_with_resetMessage st m).

Section Reset.
(** The conversion of a number to a string in a template literal. *)
Variable Number_toString : number → string.

(** [handleResetComplete(data)].  The handler returns nothing in the
    source; here it returns the timers it has set.  The search it starts
    is run to its end. *)
Definition handleResetComplete (data : ResetData) : Handler (list Timer) :=
  closure ← render_closure;
  if bool_decide (status data = "success") then
    setResetMessage
      (Some ("Reset " +:+ Number_toString (updated_count data)
             +:+ " memories successfully!"));;
    let timers := [ {| delay_ms := 3000; on_fire := setResetMessage None |} ] in
    (if str_truthy (searchTerm closure)
        && bool_decide (0 < length (memories closure))
     then searchMemories
     else mret ());;
    mret timers
  else
    setError (Some (str_or (message data) "Failed to reset weights"));;
    mret [].

End Reset.

(** ** The earlier revision of the component

    The source file carries an earlier revision of the component after the
    current one.  Its keyword extraction has no guard. *)
Module Legacy.

(** [(kw: any) => kw.type === 'primary'] *)
Definition keyword_filter (kw : value) : option bool :=
  tag ← member kw "type"; Some (is_string_literal "primary" tag).

(** [(kw: any) => kw.text] *)
Definition keyword_map (kw : value) : option value := member kw "text".

(** [response.data.keywords.filter(...).map(...)]: a value that is not an
    array has no [filter] to call. *)
Definition extract_keywords (keywords : value) : option (list value) :=
  match keywords with
  | VArray items =>
      kept ← Array_filter keyword_filter items;
      mapM keyword_map kept
  | _ => None
  end.

End Legacy.

(** ** More sample data *)

(** A host that parses the dates of the sample records, to milliseconds
    since the epoch. *)
Definition sample_dates (s : string) : number :=
  if bool_decide (s = "2020-05-01") then Finite 1588291200000
  else if bool_decide (s = "2021-07-15") then Finite 1626307200000
  else if bool_decide (s = "2019-12-24") then Finite 1577145600000
  else NaN.

(** The page without a session in its URL. *)
Definition no_session : Env :=
  answering None [paris; oslo] story adjusted_to_1_1.

(** The page of session "s1" with a backend out of reach. *)
Definition offline : Env := unreachable (Some "s1").

(** A backend that answers a narrative request with [null]. *)
Definition null_story : Env :=
  answering (Some "s1") [paris; oslo] VNull adjusted_to_1_1.

(** A narrative answer with a text and no keyword list. *)
Definition bare_story : Env :=
  answering (Some "s1") [paris; oslo]
    (VObject {["text" := VString "A quiet day"]}) adjusted_to_1_1.

(** The component showing a narrative and its keywords. *)
Definition narrated : AppState :=
  state_with_highlightedKeywords
    (state_with_narrative (searched "cat" [paris; oslo])
       (VString "An older story"))
    [VString "older"].

(** A record with a stored image and one with a file name only. *)
Definition with_image : Memory :=
  {| id := Finite 4; title := "Lake"; location := "Lake"; date := "2022-01-01";
     keywords := None; type := "user"; description := None; weight := None;
     filename := Some "lake.jpg"; image_url := Some "/img/lake.jpg";
     original_path := None; processed_path := None;
     openai_keywords := None; openai_description := None;
     impact_weight := None; detected_objects := None;
     relevance_score := None |}.

Definition reset_done : ResetData :=
  {| status := "success"; updated_count := Finite 5; message := None |}.

Definition reset_failed : ResetData :=
  {| status := "error"; updated_count := Finite 0; message := Some "x" |}.

(** The decimal form of the numbers the sample answers carry, 0 and 5. *)
Definition print_small (n : number) : string :=
  if num_strict_eq n (Finite 5) then "5"
  else if num_strict_eq n (Finite 0) then "0"
  else "NaN".

(** A record whose title does not mention its location. *)
Definition untitled : Memory :=
  sample 5 "Holiday" "Paris" "2018-08-08" (Some (Finite 1)).

(** ** The weight adjustment the specification speaks of *)

(** [after] is [before] with [weight] and [impact_weight] set to [w] where
    [memory_id] is the identifier of [before], and [before] itself where it
    is not. *)
Definition both_weights_set (memory_id : number) (w : option number)
    (before after : Memory) : Prop :=
  if num_strict_eq (id before) memory_id
  then weight after = w
       ∧ impact_weight after = w
       ∧ with_weights after (weight before) (impact_weight before) = before
  else after = before.

(** [after] is [before] with [weight] set to [w], and with the
    [impact_weight] it had, where [memory_id] is the identifier of
    [before], and [before] itself where it is not. *)
Definition weight_set (memory_id : number) (w : option number)
    (before after : Memory) : Prop :=
  if num_strict_eq (id before) memory_id
  then weight after = w
       ∧ impact_weight after = impact_weight before
       ∧ with_weights after (weight before) (impact_weight before) = before
  else after = before.

(** Two records, of weight 0.7 and of weight 0.1. *)
Definition madrid : Memory :=
  sample 6 "Madrid - 2022-03-09" "Madrid" "2022-03-09"
    (Some (Finite (7 # 10))).

Definition lisbon : Memory :=
  sample 7 "Lisbon - 2023-10-02" "Lisbon" "2023-10-02"
    (Some (Finite (1 # 10))).

(** The request that lowers the weight of [lisbon], and the answer of the
    backend to it: the new weight is 0. *)
Definition lower_lisbon : Request :=
  PostAdjustWeight (Finite 7) "s1" (Finite (- 1 # 10)).

Definition adjusted_to_0 : AdjustResponse :=
  {| new_weight := Some (Finite 0) |}.

(** The page of session "s1" with a backend that answers an adjustment
    with the weight 0. *)
Definition lowest : Env :=
  answering (Some "s1") [madrid; lisbon] story adjusted_to_0.

(** * Verification *)

(** * Facts about numbers *)

Lemma num_sign_sub_Gt (a b : number) :
  a ≠ NaN → b ≠ NaN →
  num_sign (num_sub a b) = Gt ↔ ¬ num_le a b.
Proof.
  intros Ha Hb. destruct a as [| |x|], b as [| |y|]; simpl; try done;
    try (split; [discriminate | intros H; destruct H; exact I]);
    try (split; [intros _ [] | done]).
  rewrite <- Qgt_alt. split; intros H; lra.
Qed.

Lemma num_sign_sub_not_Gt (a b : number) :
  a ≠ NaN → b ≠ NaN →
  num_sign (num_sub a b) ≠ Gt ↔ num_le a b.
Proof.
  intros Ha Hb. rewrite (num_sign_sub_Gt a b Ha Hb).
  destruct a as [| |x|], b as [| |y|]; simpl; try done; try tauto.
  split; [intros H | intros H1 H2; done].
  destruct (Qlt_le_dec y x); [| done]. exfalso. apply H. lra.
Qed.

Lemma num_le_trans (a b c : number) : num_le a b → num_le b c → num_le a c.
Proof.
  destruct a as [| |x|], b as [| |y|], c as [| |z|]; simpl; try done.
  intros; lra.
Qed.

Lemma num_le_total (a b : number) :
  a ≠ NaN → b ≠ NaN → num_le a b ∨ num_le b a.
Proof.
  intros Ha Hb. destruct a as [| |x|], b as [| |y|]; simpl; try done; auto.
  destruct (Qlt_le_dec y x); [right | left]; lra.
Qed.

Lemma num_eq_le (a b : number) : num_eq a b → num_le a b.
Proof.
  unfold num_eq. destruct a as [| |x|], b as [| |y|]; simpl; try done.
  intros H%Qeq_bool_iff. lra.
Qed.

Lemma num_le_antisym (a b : number) : num_le a b → num_le b a → num_eq a b.
Proof.
  unfold num_eq. destruct a as [| |x|], b as [| |y|]; simpl; try done.
  rewrite Qeq_bool_iff. intros; lra.
Qed.

Lemma num_le_refl (a : number) : a ≠ NaN → num_le a a.
Proof. destruct a as [| |x|]; simpl; try done. intros _. lra. Qed.

Lemma num_eq_sym (a b : number) : num_eq a b → num_eq b a.
Proof.
  unfold num_eq. destruct a as [| |x|], b as [| |y|]; simpl; try done.
  rewrite !Qeq_bool_iff. intros H; lra.
Qed.

Lemma num_eq_trans (a b c : number) : num_eq a b → num_eq b c → num_eq a c.
Proof.
  unfold num_eq.
  destruct a as [| |x|], b as [| |y|], c as [| |z|]; simpl; try done.
  rewrite !Qeq_bool_iff. intros; lra.
Qed.

Lemma num_eq_not_nan (a b : number) : num_eq a b → a ≠ NaN ∧ b ≠ NaN.
Proof. unfold num_eq. by destruct a, b. Qed.

(** * Facts about [Array.prototype.sort] *)

Section ArraySortFacts.
Context {A : Type} (comparefn : A → A → number).

Lemma sort_insert_Permutation (x : A) (l : list A) :
  sort_insert comparefn x l ≡ₚ x :: l.
Proof.
  induction l as [|y l IH]; simpl; [done |].
  destruct (num_sign (comparefn x y)); try done.
  rewrite IH. apply Permutation_swap.
Qed.

Lemma Array_sort_Permutation (l : list A) : Array_sort comparefn l ≡ₚ l.
Proof.
  induction l as [|x l IH]; simpl; [done |].
  by rewrite sort_insert_Permutation, IH.
Qed.

Lemma Array_sort_length (l : list A) :
  length (Array_sort comparefn l) = length l.
Proof. by rewrite Array_sort_Permutation. Qed.

(** A comparator that never asks for a swap leaves the array as it is. *)
Lemma Array_sort_never_swap (l : list A) :
  (∀ a b, keeps_before comparefn a b) → Array_sort comparefn l = l.
Proof.
  intros Hk. induction l as [|x l IH]; simpl; [done |]. rewrite IH.
  destruct l as [|y l]; simpl; [done |].
  specialize (Hk x y). unfold keeps_before in Hk.
  by destruct (num_sign (comparefn x y)).
Qed.

Section Ordered.
Hypothesis swap_total : ∀ a b,
  ¬ keeps_before comparefn a b → keeps_before comparefn b a.
Hypothesis keeps_trans : ∀ a b c,
  keeps_before comparefn a b → keeps_before comparefn b c →
  keeps_before comparefn a c.

Lemma sort_insert_sorted (x : A) (l : list A) :
  StronglySorted (keeps_before comparefn) l →
  StronglySorted (keeps_before comparefn) (sort_insert comparefn x l).
Proof.
  induction 1 as [|y l Hl IH Hy]; simpl.
  - repeat constructor.
  - destruct (num_sign (comparefn x y)) eqn:Hs.
    + constructor; [by constructor |]. constructor.
      * unfold keeps_before. by rewrite Hs.
      * eapply Forall_impl; [exact Hy |]. intros z Hz.
        apply (keeps_trans x y z); [| done]. unfold keeps_before. by rewrite Hs.
    + constructor; [by constructor |]. constructor.
      * unfold keeps_before. by rewrite Hs.
      * eapply Forall_impl; [exact Hy |]. intros z Hz.
        apply (keeps_trans x y z); [| done]. unfold keeps_before. by rewrite Hs.
    + constructor; [done |].
      rewrite sort_insert_Permutation. constructor; [| done].
      apply swap_total. unfold keeps_before. rewrite Hs.
      intros Hne. by apply Hne.
Qed.

Lemma Array_sort_sorted (l : list A) :
  StronglySorted (keeps_before comparefn) (Array_sort comparefn l).
Proof.
  induction l as [|x l IH]; simpl; [constructor |].
  by apply sort_insert_sorted.
Qed.

End Ordered.

(** Stability: the elements of a class whose members the comparator never
    swaps come out in the order they came in. *)
Section Stable.
Context (P : A → Prop) `{!∀ x, Decision (P x)}.
Hypothesis class_kept : ∀ x y, P x → P y → keeps_before comparefn x y.

Lemma sort_insert_filter (x : A) (l : list A) :
  filter P (sort_insert comparefn x l) = filter P (x :: l).
Proof.
  induction l as [|y l IH]; simpl; [done |].
  destruct (num_sign (comparefn x y)) eqn:Hs; try done.
  rewrite !filter_cons, IH, !filter_cons.
  destruct (decide (P y)) as [Hy|Hy], (decide (P x)) as [Hx|Hx]; try done.
  destruct (class_kept x y Hx Hy). done.
Qed.

Lemma Array_sort_filter (l : list A) :
  filter P (Array_sort comparefn l) = filter P l.
Proof.
  induction l as [|x l IH]; simpl; [done |].
  by rewrite sort_insert_filter, !filter_cons, IH.
Qed.

End Stable.

End ArraySortFacts.

(** For a consistent comparator the requirements of ECMAScript (sorted,
    stable) leave one result only. *)
Section Unique.
Context {A : Type} (comparefn : A → A → number).
Hypothesis keeps_refl : ∀ a, keeps_before comparefn a a.
Hypothesis swap_total : ∀ a b,
  ¬ keeps_before comparefn a b → keeps_before comparefn b a.
Hypothesis keeps_trans : ∀ a b c,
  keeps_before comparefn a b → keeps_before comparefn b c →
  keeps_before comparefn a c.

Lemma sorted_stable_unique (l1 l2 : list A) :
  StronglySorted (keeps_before comparefn) l1 →
  StronglySorted (keeps_before comparefn) l2 →
  (∀ a, filter (tied comparefn a) l1 = filter (tied comparefn a) l2) →
  l1 = l2.
Proof.
  intros H1. revert l2. induction H1 as [|x t1 Ht1 IH Hx]; intros l2 H2 Hcls.
  - destruct l2 as [|y t2]; [done |].
    specialize (Hcls y). rewrite filter_nil, filter_cons_True in Hcls; [done |].
    split; apply keeps_refl.
  - assert (Hxx : tied comparefn x x) by (split; apply keeps_refl).
    destruct H2 as [|y t2 Ht2 Hy].
    { specialize (Hcls x). by rewrite filter_nil, filter_cons_True in Hcls. }
    assert (Hyy : tied comparefn y y) by (split; apply keeps_refl).
    assert (x = y) as <-.
    { destruct (decide (tied comparefn x y)) as [Hxy | Hxy].
      - specialize (Hcls x). rewrite !filter_cons_True in Hcls by done.
        congruence.
      - assert (Hin2 : x ∈ y :: t2).
        { eapply (list_elem_of_filter (tied comparefn x)).
          rewrite <- Hcls, filter_cons_True by done. by left. }
        assert (Hin1 : y ∈ x :: t1).
        { eapply (list_elem_of_filter (tied comparefn y)).
          rewrite Hcls, filter_cons_True by done. by left. }
        apply elem_of_cons in Hin2 as [-> | Hin2]; [done |].
        apply elem_of_cons in Hin1 as [-> | Hin1]; [done |].
        destruct Hxy. split.
        + by eapply Forall_forall in Hx.
        + by eapply Forall_forall in Hy. }
    f_equal. apply IH; [done |]. intros a. specialize (Hcls a).
    rewrite !filter_cons in Hcls.
    destruct (decide (tied comparefn a x)); congruence.
Qed.

(** Any stable sorted arrangement of [l] is the result of [Array_sort]. *)
Lemma Array_sort_unique (l l' : list A) :
  StronglySorted (keeps_before comparefn) l' →
  (∀ a, filter (tied comparefn a) l' = filter (tied comparefn a) l) →
  l' = Array_sort comparefn l.
Proof.
  intros Hsorted Hstable. apply sorted_stable_unique; [done | |].
  - by apply Array_sort_sorted.
  - intros a. rewrite Hstable. symmetry. apply Array_sort_filter.
    intros x y [Hax Hxa] [Hay Hya]. by apply (keeps_trans x a y).
Qed.

End Unique.

(** * [sortMemories] *)

Lemma StronglySorted_weaken {A} (R R' : A → A → Prop) (l : list A) :
  (∀ a b, R a b → R' a b) → StronglySorted R l → StronglySorted R' l.
Proof.
  intros HR. induction 1 as [|x l Hl IH Hx]; constructor; [done |].
  eapply Forall_impl; [exact Hx | auto].
Qed.

Lemma filter_agree {A} (P Q : A → Prop) `{!∀ x, Decision (P x)}
    `{!∀ x, Decision (Q x)} (l : list A) :
  (∀ x, x ∈ l → P x ↔ Q x) → filter P l = filter Q l.
Proof.
  induction l as [|x l IH]; intros Hag; [done |].
  rewrite !filter_cons, IH by (intros y Hy; apply Hag; by right).
  assert (Hx : P x ↔ Q x) by (apply Hag; by left).
  destruct (decide (P x)) as [Hp|Hp], (decide (Q x)) as [Hq|Hq]; tauto.
Qed.

Lemma weight_or_one_not_nan (m : Memory) : weight_or_one m ≠ NaN.
Proof.
  unfold weight_or_one.
  destruct (weight m) as [[| |q|]|]; simpl; try done.
  by destruct (Qeq_bool q 0).
Qed.

(** The effective weight is the specified one unless the record carries a
    weight of zero or NaN. *)
Lemma weight_or_one_default (m : Memory) :
  (∀ w, weight m = Some w → num_truthy w = true) →
  weight_or_one m = weight_or_default m.
Proof.
  unfold weight_or_one, weight_or_default. intros H.
  destruct (weight m) as [w|]; [| done]. by rewrite (H w eq_refl).
Qed.

Section SortFacts.
Variable Date_getTime : string → number.

Lemma compare_weight_keeps (a b : Memory) :
  keeps_before (compareMemories Date_getTime ByWeight) a b
  ↔ num_le (weight_or_one b) (weight_or_one a).
Proof.
  unfold keeps_before. simpl.
  apply num_sign_sub_not_Gt; apply weight_or_one_not_nan.
Qed.

Lemma compare_weight_refl (a : Memory) :
  keeps_before (compareMemories Date_getTime ByWeight) a a.
Proof. apply compare_weight_keeps, num_le_refl, weight_or_one_not_nan. Qed.

Lemma compare_weight_total (a b : Memory) :
  ¬ keeps_before (compareMemories Date_getTime ByWeight) a b →
  keeps_before (compareMemories Date_getTime ByWeight) b a.
Proof.
  rewrite !compare_weight_keeps. intros H.
  destruct (num_le_total (weight_or_one a) (weight_or_one b)); try done;
    apply weight_or_one_not_nan.
Qed.

Lemma compare_weight_trans (a b c : Memory) :
  keeps_before (compareMemories Date_getTime ByWeight) a b →
  keeps_before (compareMemories Date_getTime ByWeight) b c →
  keeps_before (compareMemories Date_getTime ByWeight) a c.
Proof.
  rewrite !compare_weight_keeps. intros H1 H2. by eapply num_le_trans.
Qed.

(** Under the weight criterion the result is in descending order of the
    effective weight [m.weight || 1.0]. *)
Lemma sortMemories_weight_descending (l : list Memory) :
  descending_by weight_or_one (sortMemories Date_getTime l ByWeight).
Proof.
  unfold descending_by, sortMemories.
  eapply StronglySorted_weaken;
    [| apply Array_sort_sorted;
       [apply compare_weight_total | apply compare_weight_trans]].
  intros a b. by rewrite compare_weight_keeps.
Qed.

(** Under the weight criterion records of equal effective weight keep
    their relative order. *)
Lemma sortMemories_weight_stable (l : list Memory) :
  stable_by weight_or_one l (sortMemories Date_getTime l ByWeight).
Proof.
  intros w. unfold with_key, sortMemories. apply Array_sort_filter.
  intros x y Hx Hy. apply compare_weight_keeps, num_eq_le.
  eapply num_eq_trans; [exact Hy | by apply num_eq_sym].
Qed.

Lemma compare_weight_tied (a b : Memory) :
  tied (compareMemories Date_getTime ByWeight) a b
  ↔ num_eq (weight_or_one b) (weight_or_one a).
Proof.
  unfold tied. rewrite !compare_weight_keeps. split.
  - intros [H1 H2]. by apply num_le_antisym.
  - intros H. split; apply num_eq_le; [done | by apply num_eq_sym].
Qed.

(** The result under the weight criterion does not depend on the sorting
    algorithm of the host: it is the only arrangement of the store that is
    descending in the effective weight and keeps ties in their order. *)
Lemma sortMemories_weight_unique (l l' : list Memory) :
  descending_by weight_or_one l' →
  stable_by weight_or_one l l' →
  l' = sortMemories Date_getTime l ByWeight.
Proof.
  intros Hd Hs. unfold sortMemories.
  apply Array_sort_unique;
    [apply compare_weight_refl | apply compare_weight_total
    | apply compare_weight_trans | |].
  - eapply StronglySorted_weaken; [| exact Hd].
    intros a b. by rewrite compare_weight_keeps.
  - intros a. specialize (Hs (weight_or_one a)). unfold with_key in Hs.
    rewrite (list_filter_iff _
               (λ m, num_eq (weight_or_one m) (weight_or_one a)) l')
      by (intros m; apply compare_weight_tied).
    rewrite (list_filter_iff _
               (λ m, num_eq (weight_or_one m) (weight_or_one a)) l)
      by (intros m; apply compare_weight_tied).
    done.
Qed.

(** Every criterion yields a permutation of the input. *)
Lemma sortMemories_Permutation (l : list Memory) (sortOption : SortOption) :
  sortMemories Date_getTime l sortOption ≡ₚ l.
Proof. apply Array_sort_Permutation. Qed.

(** The relevance criterion keeps the order of the server. *)
Lemma sortMemories_relevance (l : list Memory) :
  sortMemories Date_getTime l ByRelevance = l.
Proof. apply Array_sort_never_swap. intros a b. by unfold keeps_before. Qed.

(** Under the date criterion, on a store all of whose dates the host
    parses, the result is in descending order of the parsed date. *)
Lemma sortMemories_date_descending (l : list Memory) :
  (∀ m, Date_getTime (date m) ≠ NaN) →
  descending_by (λ m, Date_getTime (date m))
    (sortMemories Date_getTime l ByDate).
Proof.
  intros Hparsed.
  assert (Hkeeps : ∀ a b,
            keeps_before (compareMemories Date_getTime ByDate) a b
            ↔ num_le (Date_getTime (date b)) (Date_getTime (date a))).
  { intros a b. unfold keeps_before. simpl. by apply num_sign_sub_not_Gt. }
  unfold descending_by, sortMemories.
  eapply StronglySorted_weaken; [| apply Array_sort_sorted].
  - intros a b. by rewrite Hkeeps.
  - intros a b. rewrite !Hkeeps. intros H.
    by destruct (num_le_total (Date_getTime (date a))
                   (Date_getTime (date b))).
  - intros a b c. rewrite !Hkeeps. intros H1 H2. by eapply num_le_trans.
Qed.

(** On a store none of whose records carries a weight of zero or NaN, the
    weight criterion sorts as specified: descending by weight, a missing
    weight counting as 1.0, and stably. *)
Lemma sortMemories_weight_as_specified (l : list Memory) :
  (∀ m w, m ∈ l → weight m = Some w → num_truthy w = true) →
  descending_by weight_or_default (sortMemories Date_getTime l ByWeight)
  ∧ stable_by weight_or_default l (sortMemories Date_getTime l ByWeight).
Proof.
  intros Hl.
  assert (Hsame : ∀ m, m ∈ l → weight_or_one m = weight_or_default m).
  { intros m Hm. apply weight_or_one_default. intros w. by apply Hl. }
  assert (Hsame' : ∀ m, m ∈ sortMemories Date_getTime l ByWeight →
                        weight_or_one m = weight_or_default m).
  { intros m Hm. apply Hsame.
    by rewrite <- (sortMemories_Permutation l ByWeight). }
  split.
  - pose proof (sortMemories_weight_descending l) as Hd.
    unfold descending_by in *.
    induction Hd as [|x l' Hl' IH Hx]; constructor.
    + apply IH. intros m Hm. apply Hsame'. by right.
    + apply Forall_forall. intros y Hy.
      rewrite <- (Hsame' x), <- (Hsame' y); [| by right | by left].
      by eapply Forall_forall in Hx.
  - intros w. unfold with_key.
    trans (with_key weight_or_one w (sortMemories Date_getTime l ByWeight)).
    { apply filter_agree. intros m Hm. by rewrite Hsame'. }
    rewrite sortMemories_weight_stable.
    apply filter_agree. intros m Hm. by rewrite Hsame.
Qed.

(** C1 (defect of the code): sorting by weight is claimed to be descending
    in the weight, a missing weight counting as 1.0.  The comparator reads
    [m.weight || 1.0], so a weight of zero counts as 1.0 too: the record of
    weight 0 is placed before the record of weight 0.5, and the result is
    not in descending order of weight. *)
Theorem sortMemories_zero_weight_misplaced :
  sortMemories Date_getTime [paris; oslo] ByWeight = [oslo; paris]
  ∧ ¬ descending_by weight_or_default
        (sortMemories Date_getTime [paris; oslo] ByWeight).
Proof.
  split; [reflexivity |].
  change (sortMemories Date_getTime [paris; oslo] ByWeight) with [oslo; paris].
  intros Hd. apply StronglySorted_inv in Hd as [_ Hd].
  apply Forall_cons in Hd as [Hd _]. simpl in Hd. lra.
Qed.

(** C8: for every array of memory records and every sort criterion,
    [sortMemories] returns a new array whose contents are a permutation of
    the input contents, of the same length, and leaves the input array, and
    every other array, as it was. *)
Theorem sortMemories_permutes_without_mutation
    (heap : gmap positive (list Memory)) (memoriesToSort : positive)
    (contents : list Memory) (sortOption : SortOption) :
  heap !! memoriesToSort = Some contents →
  ∃ heap' result,
    sortMemories_ref Date_getTime heap memoriesToSort sortOption
      = Some (heap', result)
    ∧ heap' !! result = Some (sortMemories Date_getTime contents sortOption)
    ∧ sortMemories Date_getTime contents sortOption ≡ₚ contents
    ∧ length (sortMemories Date_getTime contents sortOption) = length contents
    ∧ heap' !! memoriesToSort = Some contents
    ∧ ∀ other, other ≠ result → heap' !! other = heap !! other.
Proof.
  intros Hin.
  set (copy := fresh (dom heap)).
  assert (Hfresh : heap !! copy = None).
  { apply not_elem_of_dom. apply is_fresh. }
  assert (Hne : copy ≠ memoriesToSort) by congruence.
  exists (<[copy := sortMemories Date_getTime contents sortOption]> heap), copy.
  split; [| split; [| split; [| split; [| split]]]].
  - unfold sortMemories_ref, array_spread, array_sort_in_place.
    rewrite Hin. simpl. fold copy. rewrite lookup_insert_eq. simpl.
    by rewrite insert_insert_eq.
  - by rewrite lookup_insert_eq.
  - apply sortMemories_Permutation.
  - by rewrite sortMemories_Permutation.
  - by rewrite lookup_insert_ne.
  - intros other Hother. by rewrite lookup_insert_ne.
Qed.

End SortFacts.

Lemma sortMemories_permutes_without_mutation_witness :
  ({[ 1%positive := [paris; oslo; nowhere] ]} : gmap positive (list Memory))
    !! 1%positive = Some [paris; oslo; nowhere]
  ∧ ∃ heap' result,
      sortMemories_ref no_dates {[ 1%positive := [paris; oslo; nowhere] ]}
        1%positive ByWeight = Some (heap', result)
      ∧ heap' !! result
        = Some (sortMemories no_dates [paris; oslo; nowhere] ByWeight)
      ∧ sortMemories no_dates [paris; oslo; nowhere] ByWeight
        ≡ₚ [paris; oslo; nowhere]
      ∧ length (sortMemories no_dates [paris; oslo; nowhere] ByWeight)
        = length [paris; oslo; nowhere]
      ∧ heap' !! 1%positive = Some [paris; oslo; nowhere]
      ∧ ∀ other, other ≠ result →
          heap' !! other
          = ({[ 1%positive := [paris; oslo; nowhere] ]}
               : gmap positive (list Memory)) !! other.
Proof.
  split; [vm_compute; reflexivity |].
  apply (sortMemories_permutes_without_mutation no_dates
           {[ 1%positive := [paris; oslo; nowhere] ]} 1%positive
           [paris; oslo; nowhere] ByWeight).
  vm_compute; reflexivity.
Defined.

(** * The handlers *)

(** The operations of the [Handler] monad, for [autounfold]. *)
Create HintDb handler.
#[local] Hint Unfold mbind Handler_bind mret Handler_ret render_closure
  getSessionId try_catch try_catch_finally api_call read_member or_throw
  throw : handler.

(** Runs a handler up to its next test on the environment. *)
Ltac handler_step := repeat progress (autounfold with handler; simpl).

Lemma prefix_drop_length (p s : string) :
  String.prefix p s = true →
  String.length (str_drop (String.length p) s) + String.length p
  = String.length s.
Proof.
  revert s. induction p as [|c p IH]; intros s; [by destruct s; simpl; lia |].
  destruct s as [|d s]; simpl; [done |].
  destruct (ascii_dec c d); [| done]. intros H%IH. lia.
Qed.

Lemma utf8_length (code_point : N) : 0 < String.length (utf8 code_point).
Proof. unfold utf8. repeat case_match; simpl; lia. Qed.

Lemma strip_white_space_shorter (s r : string) :
  strip_white_space s = Some r → String.length r < String.length s.
Proof.
  unfold strip_white_space.
  destruct (List.find _ white_space) as [code_point|] eqn:Hfind; [| done].
  apply List.find_some in Hfind as [_ Hprefix]. intros [= <-].
  apply prefix_drop_length in Hprefix.
  pose proof (utf8_length code_point). lia.
Qed.

Lemma strip_white_space_empty : strip_white_space EmptyString = None.
Proof. reflexivity. Qed.

(** Induction along the white space that a string starts with. *)
Lemma strip_white_space_ind (P : string → Prop) :
  (∀ s, (∀ r, strip_white_space s = Some r → P r) → P s) → ∀ s, P s.
Proof.
  intros step s. remember (String.length s) as n eqn:Hn.
  revert s Hn. induction n as [n IH] using lt_wf_ind. intros s ->.
  apply step. intros r Hr%strip_white_space_shorter. by eapply IH.
Qed.

(** The length of the string is fuel enough. *)
Lemma all_white_space_within_enough (fuel : nat) (s : string) :
  String.length s ≤ fuel →
  all_white_space_within fuel s = all_white_space s.
Proof.
  unfold all_white_space. remember (String.length s) as n eqn:Hn.
  assert (String.length s ≤ n) as Hle by lia. clear Hn.
  revert s n Hle. induction fuel as [|fuel IH]; intros s n Hle Hfuel.
  - destruct s; simpl in *; [by destruct n | lia].
  - destruct s as [|c r]; [by destruct n |].
    destruct n as [|n]; [simpl in Hle; lia |]. simpl.
    destruct (strip_white_space (String c r)) as [r'|] eqn:Hr; [| done].
    apply strip_white_space_shorter in Hr. simpl in Hr, Hle. apply IH; lia.
Qed.

Lemma all_white_space_unfold (s : string) :
  all_white_space s
  = match s with
    | EmptyString => true
    | String _ _ =>
        match strip_white_space s with
        | Some r => all_white_space r
        | None => false
        end
    end.
Proof.
  destruct s as [|c r]; [done |]. unfold all_white_space at 1. simpl.
  destruct (strip_white_space (String c r)) as [r'|] eqn:Hr; [| done].
  apply strip_white_space_shorter in Hr. simpl in Hr.
  apply all_white_space_within_enough. lia.
Qed.

Lemma trimStart_within_enough (fuel : nat) (s : string) :
  String.length s ≤ fuel → trimStart_within fuel s = trimStart s.
Proof.
  unfold trimStart. remember (String.length s) as n eqn:Hn.
  assert (String.length s ≤ n) as Hle by lia. clear Hn.
  revert s n Hle. induction fuel as [|fuel IH]; intros s n Hle Hfuel.
  - destruct s; simpl in *; [by destruct n | lia].
  - destruct n as [|n].
    + destruct s; simpl in Hle; [done | lia].
    + simpl. destruct (strip_white_space s) as [r|] eqn:Hr; [| done].
      apply strip_white_space_shorter in Hr. apply IH; lia.
Qed.

Lemma trimStart_unfold (s : string) :
  trimStart s
  = match strip_white_space s with
    | Some r => trimStart r
    | None => s
    end.
Proof.
  destruct s as [|c r]; [done |]. unfold trimStart at 1. simpl.
  destruct (strip_white_space (String c r)) as [r'|] eqn:Hr; [| done].
  apply strip_white_space_shorter in Hr. simpl in Hr.
  apply trimStart_within_enough. lia.
Qed.

Lemma trimEnd_unfold (s : string) :
  trimEnd s
  = if all_white_space s then EmptyString
    else match s with
         | EmptyString => EmptyString
         | String c r => String c (trimEnd r)
         end.
Proof. by destruct s. Qed.

Lemma trimStart_blank (s : string) :
  all_white_space s = true → trimStart s = EmptyString.
Proof.
  induction s as [s IH] using strip_white_space_ind.
  rewrite all_white_space_unfold, trimStart_unfold.
  destruct s as [|c r]; [done |].
  destruct (strip_white_space (String c r)) as [r'|] eqn:Hr; [| done]. eauto.
Qed.

Lemma trimEnd_empty_blank (s : string) :
  trimEnd s = EmptyString → all_white_space s = true.
Proof.
  rewrite trimEnd_unfold. destruct (all_white_space s) eqn:Hs; [done |].
  by destruct s.
Qed.

Lemma trimStart_rest_blank (s : string) :
  all_white_space (trimStart s) = true → all_white_space s = true.
Proof.
  induction s as [s IH] using strip_white_space_ind.
  rewrite trimStart_unfold, (all_white_space_unfold s).
  destruct s as [|c r]; [done |].
  destruct (strip_white_space (String c r)) as [r'|] eqn:Hr; [eauto |].
  rewrite all_white_space_unfold, Hr. done.
Qed.

(** [trim] yields the empty string exactly on the strings made of white
    space only. *)
Lemma trim_blank (s : string) : trim s = EmptyString ↔ all_white_space s = true.
Proof.
  unfold trim. split.
  - intros H%trimEnd_empty_blank. by apply trimStart_rest_blank.
  - intros H. by rewrite trimStart_blank.
Qed.

Example trim_inner_space : trim "  a b  " = "a b".
Proof. reflexivity. Qed.

Lemma str_truthy_trim (s : string) :
  str_truthy (trim s) = negb (all_white_space s).
Proof.
  destruct (all_white_space s) eqn:Hs.
  - apply trim_blank in Hs. by rewrite Hs.
  - destruct (trim s) eqn:Ht; [| done].
    apply trim_blank in Ht. congruence.
Qed.

Lemma session_present (sid : string) :
  str_truthy sid = true → session_missing (Some sid) = false.
Proof. simpl. by intros ->. Qed.

(** C6: for every search term that is empty or made of white space only,
    search and narrative generation send no request, leave the memory
    store, the narrative and its keywords as they were, and set the error
    "Please enter a search term". *)
Theorem blank_search_term_rejected (env : Env) (st : AppState)
    (log : list Request) :
  all_white_space (searchTerm st) = true →
  ∃ st',
    searchMemories env st log = (Returned (), st', log)
    ∧ generateNarrative env st log = (Returned (), st', log)
    ∧ memories st' = memories st
    ∧ narrative st' = narrative st
    ∧ highlightedKeywords st' = highlightedKeywords st
    ∧ error st' = Some "Please enter a search term".
Proof.
  intros Hblank. exists (state_with_error st (Some no_search_term_message)).
  unfold searchMemories, generateNarrative. handler_step.
  by rewrite str_truthy_trim, Hblank.
Qed.

Lemma blank_search_term_rejected_witness :
  all_white_space (searchTerm (searched "   " [paris; oslo])) = true
  ∧ ∃ st',
      searchMemories online (searched "   " [paris; oslo]) []
        = (Returned (), st', [])
      ∧ generateNarrative online (searched "   " [paris; oslo]) []
        = (Returned (), st', [])
      ∧ memories st' = [paris; oslo]
      ∧ narrative st' = VString EmptyString
      ∧ highlightedKeywords st' = []
      ∧ error st' = Some "Please enter a search term".
Proof.
  split; [reflexivity |].
  apply (blank_search_term_rejected online (searched "   " [paris; oslo]) []).
  reflexivity.
Defined.

(** The ideographic space U+3000 alone, and an em space U+2003 followed by
    U+FEFF, are blank search terms: no request is sent. *)
Example blank_search_term_beyond_latin_1 :
  all_white_space (utf8_string [0x3000]%N) = true
  ∧ all_white_space (utf8_string [0x2003; 0xFEFF]%N) = true
  ∧ searchMemories online (searched (utf8_string [0x3000]%N) [paris]) []
    = (Returned (),
       state_with_error (searched (utf8_string [0x3000]%N) [paris])
         (Some "Please enter a search term"),
       [])
  ∧ generateNarrative online
      (searched (utf8_string [0x2003; 0xFEFF]%N) [paris]) []
    = (Returned (),
       state_with_error (searched (utf8_string [0x2003; 0xFEFF]%N) [paris])
         (Some "Please enter a search term"),
       []).
Proof. repeat split; reflexivity. Qed.

(** A term with a letter between white space is not blank: the search is
    sent, with the term as it was typed. *)
Example search_term_with_outer_white_space :
  all_white_space (utf8_string [0x3000; 0x61; 0xA0]%N) = false
  ∧ ∃ st',
      searchMemories online
        (searched (utf8_string [0x3000; 0x61; 0xA0]%N) [paris]) []
      = (Returned (), st',
         [GetSearch "s1" (utf8_string [0x3000; 0x61; 0xA0]%N) User ByWeight]).
Proof. split; [reflexivity |]. eexists. reflexivity. Qed.



(** A rejected search keeps the store and shows the message of the
    rejection. *)
Example searchMemories_unreachable :
  ∃ st',
    searchMemories (unreachable (Some "s1")) (searched "paris" [nowhere]) []
    = (Returned (), st', [GetSearch "s1" "paris" User ByWeight])
    ∧ memories st' = [nowhere] ∧ error st' = Some "Network Error".
Proof. eexists. split; [reflexivity |]. split; reflexivity. Qed.

(** Without a session in the URL a search sends nothing, keeps the store
    and shows the session error. *)
Lemma searchMemories_no_session (env : Env) (st : AppState)
    (log : list Request) :
  all_white_space (searchTerm st) = false →
  session_missing (url_session env) = true →
  ∃ st',
    searchMemories env st log = (Returned (), st', log)
    ∧ memories st' = memories st
    ∧ error st' = Some no_session_message.
Proof.
  intros Hterm Hmissing.
  unfold searchMemories. handler_step.
  rewrite str_truthy_trim, Hterm. simpl. rewrite Hmissing. simpl. eauto.
Qed.

(** * Location updates *)

Lemma handleLocationUpdate_run (memoryId : number) (newLocation : string)
    (updatedMemory : option Partial.t) (env : Env) (st : AppState)
    (log : list Request) :
  handleLocationUpdate memoryId newLocation updatedMemory env st log
  = (Returned (),
     state_with_memories st
       (handleLocationUpdate_updater memoryId newLocation updatedMemory
          (memories st)),
     log).
Proof. reflexivity. Qed.

(** C4: for every record of the store that the identifier matches and whose
    location is "Unknown Location", the partial location update (no full
    record) puts at that position a record whose title is exactly the new
    location, " - " and the date of the record, and whose location is the new
    location. *)
Theorem location_update_of_unknown_location (memoryId : number)
    (newLocation : string) (env : Env) (st : AppState) (log : list Request)
    (i : nat) (memory : Memory) :
  memories st !! i = Some memory →
  num_strict_eq (id memory) memoryId = true →
  location memory = "Unknown Location" →
  ∃ st' memory',
    handleLocationUpdate memoryId newLocation None env st log
      = (Returned (), st', log)
    ∧ memories st' !! i = Some memory'
    ∧ title memory' = newLocation +:+ " - " +:+ date memory
    ∧ location memory' = newLocation.
Proof.
  intros Hi Hid Hloc. rewrite handleLocationUpdate_run.
  eexists _, _. split; [reflexivity |]. simpl.
  unfold handleLocationUpdate_updater. rewrite list_lookup_fmap, Hi. simpl.
  split; [reflexivity |]. unfold updateLocationOf. rewrite Hid. simpl.
  rewrite bool_decide_eq_true_2 by done. done.
Qed.

Lemma location_update_of_unknown_location_witness :
  memories (searched "x" [paris; nowhere]) !! 1 = Some nowhere
  ∧ num_strict_eq (id nowhere) (Finite 3) = true
  ∧ location nowhere = "Unknown Location"
  ∧ ∃ st' memory',
      handleLocationUpdate (Finite 3) "Rome" None online
        (searched "x" [paris; nowhere]) []
        = (Returned (), st', [])
      ∧ memories st' !! 1 = Some memory'
      ∧ title memory' = "Rome - 2019-12-24"
      ∧ location memory' = "Rome".
Proof.
  repeat split; try reflexivity.
  apply (location_update_of_unknown_location (Finite 3) "Rome" online
           (searched "x" [paris; nowhere]) [] 1 nowhere); reflexivity.
Defined.

Lemma location_updater_without_match (memoryId : number)
    (newLocation : string) (updatedMemory : option Partial.t)
    (l : list Memory) :
  (∀ memory, memory ∈ l → num_strict_eq (id memory) memoryId = false) →
  handleLocationUpdate_updater memoryId newLocation updatedMemory l = l.
Proof.
  unfold handleLocationUpdate_updater.
  induction l as [|m l IH]; intros Hnone; [done |].
  rewrite fmap_cons, IH by (intros m' Hm'; apply Hnone; by right).
  unfold updateLocationOf. rewrite (Hnone m) by (by left). done.
Qed.

(** C9: for every store and every identifier that matches no record of it,
    a location update, partial or with a full record, leaves the component
    state as it was: every record unchanged, in the same order. *)
Theorem location_update_without_match (memoryId : number)
    (newLocation : string) (updatedMemory : option Partial.t) (env : Env)
    (st : AppState) (log : list Request) :
  (∀ memory, memory ∈ memories st →
     num_strict_eq (id memory) memoryId = false) →
  handleLocationUpdate memoryId newLocation updatedMemory env st log
  = (Returned (), st, log).
Proof.
  intros Hnone. rewrite handleLocationUpdate_run.
  rewrite location_updater_without_match by done. by destruct st.
Qed.

Lemma location_update_without_match_witness :
  (∀ memory, memory ∈ memories (searched "x" [paris; oslo]) →
     num_strict_eq (id memory) (Finite 7) = false)
  ∧ handleLocationUpdate (Finite 7) "Rome" (Some oslo_in_rome) online
      (searched "x" [paris; oslo]) []
    = (Returned (), searched "x" [paris; oslo], []).
Proof.
  assert (Hnone : ∀ memory, memory ∈ memories (searched "x" [paris; oslo]) →
                    num_strict_eq (id memory) (Finite 7) = false).
  { intros memory Hin. simpl in Hin.
    apply elem_of_cons in Hin as [-> | Hin]; [reflexivity |].
    apply elem_of_cons in Hin as [-> | Hin]; [reflexivity |].
    by apply elem_of_nil in Hin. }
  split; [exact Hnone |].
  exact (location_update_without_match (Finite 7) "Rome" (Some oslo_in_rome)
           online (searched "x" [paris; oslo]) [] Hnone).
Defined.

(** * Weight adjustment *)

Section WeightFacts.
Variable Date_getTime : string → number.

Lemma handleIncreaseWeight_run (memory_id : number) (env : Env) (st : AppState)
    (log : list Request) (sid : string) (response : AdjustResponse) :
  url_session env = Some sid →
  str_truthy sid = true →
  backend_adjust_weight env (PostAdjustWeight memory_id sid (Finite (1 # 10)))
    = inr response →
  handleIncreaseWeight Date_getTime memory_id env st log
  = (Returned (),
     state_with_memories st
       (sortMemories Date_getTime (increased response memory_id <$> memories st)
          (sortBy st)),
     log ++ [PostAdjustWeight memory_id sid (Finite (1 # 10))]).
Proof.
  intros Hsid Htruthy Hreply.
  unfold handleIncreaseWeight. handler_step.
  rewrite Hsid. simpl. rewrite Htruthy. simpl. by rewrite Hreply.
Qed.

Lemma handleDecreaseWeight_run (memory_id : number) (env : Env) (st : AppState)
    (log : list Request) (sid : string) (response : AdjustResponse) :
  url_session env = Some sid →
  str_truthy sid = true →
  backend_adjust_weight env (PostAdjustWeight memory_id sid (Finite (- 1 # 10)))
    = inr response →
  handleDecreaseWeight Date_getTime memory_id env st log
  = (Returned (),
     state_with_memories st
       (sortMemories Date_getTime (decreased response memory_id <$> memories st)
          (sortBy st)),
     log ++ [PostAdjustWeight memory_id sid (Finite (- 1 # 10))]).
Proof.
  intros Hsid Htruthy Hreply.
  unfold handleDecreaseWeight. handler_step.
  rewrite Hsid. simpl. rewrite Htruthy. simpl. by rewrite Hreply.
Qed.

Lemma elem_of_sorted_fmap (f : Memory → Memory) (l : list Memory)
    (sortOption : SortOption) (m' : Memory) :
  m' ∈ sortMemories Date_getTime (f <$> l) sortOption ↔ ∃ m, m' = f m ∧ m ∈ l.
Proof. by rewrite sortMemories_Permutation, list_elem_of_fmap. Qed.

Lemma increased_match (response : AdjustResponse) (memory_id : number)
    (m : Memory) :
  num_strict_eq (id (increased response memory_id m)) memory_id = true →
  weight (increased response memory_id m) = new_weight response
  ∧ impact_weight (increased response memory_id m) = new_weight response.
Proof.
  unfold increased.
  destruct (num_strict_eq (id m) memory_id) eqn:Hm; simpl; [done |].
  congruence.
Qed.

Lemma decreased_match (response : AdjustResponse) (memory_id : number)
    (m : Memory) :
  num_strict_eq (id (decreased response memory_id m)) memory_id = true →
  weight (decreased response memory_id m) = new_weight response.
Proof.
  unfold decreased.
  destruct (num_strict_eq (id m) memory_id) eqn:Hm; simpl; [done |].
  congruence.
Qed.

Lemma decreased_impact_weight (response : AdjustResponse) (memory_id : number)
    (m : Memory) :
  impact_weight (decreased response memory_id m) = impact_weight m.
Proof. unfold decreased. by destruct (num_strict_eq (id m) memory_id). Qed.

(** C3 (defect of the code): after a successful weight adjustment the
    matching record is claimed to carry the weight of the answer and the
    store to be sorted again under the active criterion.  The record does
    get the weight of the answer, but under the weight criterion the store
    is sorted by [m.weight || 1.0] (the defect of C1): when a weight of 0.1
    is decreased and the answer is the weight 0, the record of weight 0 is
    placed before the record of weight 0.7, and the store, which was in
    descending order of weight, no longer is. *)
Theorem weight_adjust_zero_weight_misplaced :
  ∃ st',
    sortBy (searched "x" [madrid; lisbon]) = ByWeight
    ∧ descending_by weight_or_default
        (memories (searched "x" [madrid; lisbon]))
    ∧ handleDecreaseWeight Date_getTime (Finite 7) lowest
        (searched "x" [madrid; lisbon]) []
      = (Returned (), st', [lower_lisbon])
    ∧ memories st' = [with_weight lisbon (Some (Finite 0)); madrid]
    ∧ weight <$> memories st' = [Some (Finite 0); Some (Finite (7 # 10))]
    ∧ ¬ descending_by weight_or_default (memories st').
Proof.
  eexists. split; [reflexivity |]. split.
  { repeat constructor. simpl. lra. }
  split; [reflexivity |]. split; [reflexivity |]. split; [reflexivity |].
  simpl. intros Hd. apply StronglySorted_inv in Hd as [_ Hd].
  apply Forall_cons in Hd as [Hd _]. simpl in Hd. lra.
Qed.

Lemma increased_both_weights_set (response : AdjustResponse)
    (memory_id : number) (l : list Memory) :
  Forall2 (both_weights_set memory_id (new_weight response)) l
    (increased response memory_id <$> l).
Proof.
  apply Forall2_fmap_r, Forall_Forall2_diag, Forall_forall. intros m _.
  unfold both_weights_set, increased, compose. simpl.
  destruct (num_strict_eq (id m) memory_id); [| done].
  by destruct m.
Qed.

Lemma decreased_weight_set (response : AdjustResponse)
    (memory_id : number) (l : list Memory) :
  Forall2 (weight_set memory_id (new_weight response)) l
    (decreased response memory_id <$> l).
Proof.
  apply Forall2_fmap_r, Forall_Forall2_diag, Forall_forall. intros m _.
  unfold weight_set, decreased, compose. simpl.
  destruct (num_strict_eq (id m) memory_id); [| done].
  by destruct m.
Qed.

(** C10: a successful increase turns the store into a rearrangement of its
    records in which every record the identifier matches has both [weight]
    and [impact_weight] equal to the [new_weight] of the answer, and every
    other field and every other record as before; a successful decrease
    turns it into a rearrangement in which every matching record has that
    [weight] and the [impact_weight] it had, and every other field and
    every other record as before.  No record is lost or added, and the
    matching records of the store before are in the store afterwards with
    their new weights. *)
Theorem increase_sets_both_weights_decrease_one (memory_id : number) (env : Env)
    (st : AppState) (log : list Request) (sid : string) :
  url_session env = Some sid →
  str_truthy sid = true →
  (∀ up,
     backend_adjust_weight env
       (PostAdjustWeight memory_id sid (Finite (1 # 10))) = inr up →
     ∃ st_up updated,
       handleIncreaseWeight Date_getTime memory_id env st log
         = (Returned (), st_up,
            log ++ [PostAdjustWeight memory_id sid (Finite (1 # 10))])
       ∧ Forall2 (both_weights_set memory_id (new_weight up))
           (memories st) updated
       ∧ memories st_up ≡ₚ updated
       ∧ (∀ m, m ∈ memories st → num_strict_eq (id m) memory_id = true →
            with_weights m (new_weight up) (new_weight up) ∈ memories st_up)
       ∧ (∀ m, m ∈ memories st → num_strict_eq (id m) memory_id = false →
            m ∈ memories st_up))
  ∧ (∀ down,
       backend_adjust_weight env
         (PostAdjustWeight memory_id sid (Finite (- 1 # 10))) = inr down →
       ∃ st_down updated,
         handleDecreaseWeight Date_getTime memory_id env st log
           = (Returned (), st_down,
              log ++ [PostAdjustWeight memory_id sid (Finite (- 1 # 10))])
         ∧ Forall2 (weight_set memory_id (new_weight down))
             (memories st) updated
         ∧ memories st_down ≡ₚ updated
         ∧ (∀ m, m ∈ memories st → num_strict_eq (id m) memory_id = true →
              with_weights m (new_weight down) (impact_weight m)
                ∈ memories st_down)
         ∧ (∀ m, m ∈ memories st → num_strict_eq (id m) memory_id = false →
              m ∈ memories st_down)).
Proof.
  intros Hsid Htruthy. split.
  - intros up Hup.
    rewrite (handleIncreaseWeight_run memory_id env st log sid up) by done.
    eexists _, (increased up memory_id <$> memories st).
    split; [reflexivity |]. simpl.
    split; [apply increased_both_weights_set |].
    split; [apply sortMemories_Permutation |].
    split; intros m Hm Hid; apply elem_of_sorted_fmap; exists m;
      (split; [| done]); unfold increased; by rewrite Hid.
  - intros down Hdown.
    rewrite (handleDecreaseWeight_run memory_id env st log sid down) by done.
    eexists _, (decreased down memory_id <$> memories st).
    split; [reflexivity |]. simpl.
    split; [apply decreased_weight_set |].
    split; [apply sortMemories_Permutation |].
    split; intros m Hm Hid; apply elem_of_sorted_fmap; exists m;
      (split; [| done]); unfold decreased; by rewrite Hid.
Qed.

End WeightFacts.

(** After the increase the record of weight 0.5 has weight 1.1 and moves
    to the front of the store. *)
Example handleIncreaseWeight_moves_record :
  ∃ st',
    handleIncreaseWeight no_dates (Finite 1) online
      (searched "x" [oslo; nowhere; paris]) []
    = (Returned (), st', [raise_paris])
    ∧ id <$> memories st' = [Finite 1; Finite 2; Finite 3]
    ∧ weight <$> memories st'
      = [Some (Finite (11 # 10)); Some (Finite 0); None].
Proof. eexists. split; [reflexivity |]. split; reflexivity. Qed.

Lemma increase_sets_both_weights_decrease_one_witness :
  url_session online = Some "s1"
  ∧ str_truthy "s1" = true
  ∧ backend_adjust_weight online raise_paris = inr adjusted_to_1_1
  ∧ backend_adjust_weight online lower_paris = inr adjusted_to_1_1
  ∧ (∃ st_up updated,
       handleIncreaseWeight no_dates (Finite 1) online
         (searched "x" [oslo; nowhere; paris]) []
         = (Returned (), st_up, [raise_paris])
       ∧ Forall2 (both_weights_set (Finite 1) (Some (Finite (11 # 10))))
           [oslo; nowhere; paris] updated
       ∧ memories st_up ≡ₚ updated
       ∧ (∀ m, m ∈ [oslo; nowhere; paris] →
            num_strict_eq (id m) (Finite 1) = true →
            with_weights m (Some (Finite (11 # 10))) (Some (Finite (11 # 10)))
              ∈ memories st_up)
       ∧ (∀ m, m ∈ [oslo; nowhere; paris] →
            num_strict_eq (id m) (Finite 1) = false → m ∈ memories st_up))
  ∧ (∃ st_down updated,
       handleDecreaseWeight no_dates (Finite 1) online
         (searched "x" [oslo; nowhere; paris]) []
         = (Returned (), st_down, [lower_paris])
       ∧ Forall2 (weight_set (Finite 1) (Some (Finite (11 # 10))))
           [oslo; nowhere; paris] updated
       ∧ memories st_down ≡ₚ updated
       ∧ (∀ m, m ∈ [oslo; nowhere; paris] →
            num_strict_eq (id m) (Finite 1) = true →
            with_weights m (Some (Finite (11 # 10))) (impact_weight m)
              ∈ memories st_down)
       ∧ (∀ m, m ∈ [oslo; nowhere; paris] →
            num_strict_eq (id m) (Finite 1) = false → m ∈ memories st_down)).
Proof.
  do 4 (split; [reflexivity |]).
  destruct (increase_sets_both_weights_decrease_one no_dates (Finite 1) online
              (searched "x" [oslo; nowhere; paris]) [] "s1" eq_refl eq_refl)
    as [Hup Hdown].
  split; [exact (Hup adjusted_to_1_1 eq_refl)
         | exact (Hdown adjusted_to_1_1 eq_refl)].
Defined.

(** After the decrease the matching record has the new [weight] and still
    no [impact_weight]; after the increase it has both. *)
Example handleDecreaseWeight_keeps_impact_weight :
  ∃ st_up st_down,
    handleIncreaseWeight no_dates (Finite 1) online
      (searched "x" [paris]) []
    = (Returned (), st_up, [raise_paris])
    ∧ handleDecreaseWeight no_dates (Finite 1) online
        (searched "x" [paris]) []
      = (Returned (), st_down, [lower_paris])
    ∧ impact_weight <$> memories st_up = [Some (Finite (11 # 10))]
    ∧ impact_weight <$> memories st_down = [None]
    ∧ weight <$> memories st_down = [Some (Finite (11 # 10))].
Proof. eexists _, _. repeat split; reflexivity. Qed.

(** * Keyword extraction *)

Lemma keyword_callbacks (kw : value) :
  match keyword_contribution kw with
  | Some v => keyword_filter kw = Some true ∧ keyword_map kw = Some v
  | None => keyword_filter kw = Some false
  end.
Proof.
  destruct kw as [| |b|n|s|items|props]; simpl; try done.
  - by destruct b.
  - unfold keyword_filter. simpl. by destruct (num_truthy n).
  - by destruct s.
  - unfold keyword_filter, keyword_map, tagged_primary, text_field. simpl.
    by destruct (is_string_literal "primary"
                   (default VUndefined (props !! "type"))).
Qed.

(** The extraction never throws; it keeps, in order, the contribution of
    each entry. *)
Lemma extract_keywords_contributions (items : list value) :
  extract_keywords items = Some (omap keyword_contribution items).
Proof.
  unfold extract_keywords.
  assert (H : ∃ kept, Array_filter keyword_filter items = Some kept
                      ∧ mapM keyword_map kept
                        = Some (omap keyword_contribution items)).
  { induction items as [|kw items (kept & Hf & Hm)]; [by exists [] |].
    pose proof (keyword_callbacks kw) as Hkw. simpl. rewrite Hf.
    destruct (keyword_contribution kw) as [v|].
    - destruct Hkw as [-> Hmap]. exists (kw :: kept). split; [done |].
      simpl. rewrite Hmap, Hm. done.
    - rewrite Hkw. exists kept. done. }
  destruct H as (kept & -> & Hm). done.
Qed.

(** C7 (as amended): for every narrative answer whose [keywords] is a list,
    the highlight keywords become, in order, the non-empty plain strings of
    the list and the text fields of its entries tagged "primary"; every
    other entry, the empty string included, contributes nothing. *)
Theorem narrative_keywords_contributions (env : Env) (st : AppState)
    (log : list Request) (sid : string) (props : gmap string value)
    (items : list value) :
  all_white_space (searchTerm st) = false →
  url_session env = Some sid →
  str_truthy sid = true →
  backend_narrative env (GetNarrative sid (searchTerm st) (memoryType st))
    = inr (VObject props) →
  props !! "keywords" = Some (VArray items) →
  ∃ st',
    generateNarrative env st log
      = (Returned (), st',
         log ++ [GetNarrative sid (searchTerm st) (memoryType st)])
    ∧ highlightedKeywords st' = omap keyword_contribution items.
Proof.
  intros Hterm Hsid Htruthy Hreply Hkeywords.
  unfold generateNarrative. handler_step.
  rewrite str_truthy_trim, Hterm. simpl.
  rewrite Hsid. simpl. rewrite Htruthy. simpl. rewrite Hreply. simpl.
  rewrite Hkeywords. simpl.
  rewrite extract_keywords_contributions.
  destruct (ToBoolean (default VUndefined (props !! "narrative_text"))); simpl;
    [eauto |].
  destruct (ToBoolean (default VUndefined (props !! "text"))); simpl; eauto.
Qed.

Lemma narrative_keywords_contributions_witness :
  all_white_space (searchTerm (searched "cat" [paris])) = false
  ∧ url_session online = Some "s1"
  ∧ str_truthy "s1" = true
  ∧ backend_narrative online (GetNarrative "s1" "cat" User)
    = inr (VObject story_props)
  ∧ story_props !! "keywords" = Some (VArray story_keywords)
  ∧ ∃ st',
      generateNarrative online (searched "cat" [paris]) []
        = (Returned (), st', [GetNarrative "s1" "cat" User])
      ∧ highlightedKeywords st' = [VString "cat"; VString "dog"; VUndefined].
Proof.
  do 5 (split; [reflexivity |]).
  apply (narrative_keywords_contributions online (searched "cat" [paris]) []
           "s1" story_props story_keywords); reflexivity.
Defined.

(** C7 as stated fails: the empty string is a plain string of the answer,
    yet it is not among the highlight keywords. *)
Lemma narrative_keywords_drop_empty_string :
  ∃ st',
    generateNarrative online (searched "cat" [paris]) []
    = (Returned (), st', [GetNarrative "s1" "cat" User])
    ∧ VString EmptyString ∈ omap keyword_as_specified story_keywords
    ∧ ¬ (VString EmptyString ∈ highlightedKeywords st')
    ∧ highlightedKeywords st' ≠ omap keyword_as_specified story_keywords.
Proof.
  eexists. split; [reflexivity |]. split; [by left |].
  split; [| vm_compute; discriminate].
  vm_compute. intros H. repeat (apply elem_of_cons in H as [H | H]; [done |]).
  by apply elem_of_nil in H.
Qed.

(** * The title rewrite of a location update *)

#[local] Arguments String.append : simpl nomatch.

Lemma prefix_app (p s : string) :
  String.prefix p s = true ↔ ∃ r, s = p +:+ r.
Proof.
  revert s. induction p as [|c p IH]; intros s.
  - split; [intros _; by exists s | by destruct s].
  - destruct s as [|d s]; simpl; [split; [done | by intros [r Hr]] |].
    destruct (ascii_dec c d) as [-> | Hne].
    + rewrite IH. split; intros [r Hr]; exists r; simpl in *; congruence.
    + split; [done |]. intros [r Hr]. simpl in Hr. congruence.
Qed.

Lemma str_drop_app (p r : string) : str_drop (String.length p) (p +:+ r) = r.
Proof. induction p as [|c p IH]; simpl; [by destruct r | done]. Qed.

Lemma string_app_assoc (a b c : string) : (a +:+ b) +:+ c = a +:+ b +:+ c.
Proof. induction a as [|x a IH]; simpl; [done | by rewrite IH]. Qed.

Lemma prefix_both (a b s : string) :
  String.prefix a s = true → String.prefix b s = true →
  String.prefix a b = true ∨ String.prefix b a = true.
Proof.
  revert b s. induction a as [|c a IH]; intros b s; [left; by destruct b |].
  destruct b as [|d b]; [by right |].
  destruct s as [|e s]; simpl; [done |].
  destruct (ascii_dec c e) as [-> |]; [| done].
  destruct (ascii_dec d e) as [-> |]; [| done].
  destruct (ascii_dec e e); [| done]. apply IH.
Qed.

Lemma white_space_prefix_free (code_point code_point' : N) :
  code_point ∈ white_space → code_point' ∈ white_space →
  String.prefix (utf8 code_point') (utf8 code_point) = true →
  code_point' = code_point.
Proof.
  assert (forallb (λ cp, forallb (λ cp',
            implb (String.prefix (utf8 cp') (utf8 cp)) (N.eqb cp' cp))
            white_space) white_space = true) as Hall by (by vm_compute).
  intros Hcp Hcp' Hprefix.
  rewrite forallb_forall in Hall.
  apply list_elem_of_In, Hall in Hcp. rewrite forallb_forall in Hcp.
  apply list_elem_of_In, Hcp in Hcp'. rewrite Hprefix in Hcp'.
  by apply N.eqb_eq.
Qed.

Lemma strip_white_space_utf8 (code_point : N) (r : string) :
  code_point ∈ white_space →
  strip_white_space (utf8 code_point +:+ r) = Some r.
Proof.
  intros Hcp. unfold strip_white_space.
  assert (String.prefix (utf8 code_point) (utf8 code_point +:+ r) = true)
    as Hprefix by (apply prefix_app; eauto).
  destruct (List.find _ white_space) as [code_point'|] eqn:Hfind.
  - apply List.find_some in Hfind as [Hcp'%list_elem_of_In Hprefix'].
    assert (code_point' = code_point) as ->.
    { destruct (prefix_both _ _ _ Hprefix Hprefix').
      - symmetry. by apply white_space_prefix_free.
      - by apply white_space_prefix_free. }
    simpl. by rewrite str_drop_app.
  - apply list_elem_of_In in Hcp.
    pose proof (List.find_none _ _ Hfind _ Hcp) as Hno. simpl in Hno.
    congruence.
Qed.

Lemma strip_white_space_sound (s r : string) :
  strip_white_space s = Some r →
  ∃ code_point, code_point ∈ white_space ∧ s = utf8 code_point +:+ r.
Proof.
  unfold strip_white_space.
  destruct (List.find _ white_space) as [code_point|] eqn:Hfind; [| done].
  apply List.find_some in Hfind as [Hcp%list_elem_of_In Hprefix].
  intros [= <-]. exists code_point. split; [done |].
  apply prefix_app in Hprefix as [r Hr]. rewrite Hr at 2.
  by rewrite Hr, str_drop_app.
Qed.

(** The strings that [all_white_space] accepts are the sequences of white
    space code points. *)
Lemma all_white_space_spec (s : string) :
  all_white_space s = true
  ↔ ∃ code_points,
      Forall (λ code_point, code_point ∈ white_space) code_points
      ∧ s = utf8_string code_points.
Proof.
  split.
  - induction s as [s IH] using strip_white_space_ind.
    rewrite all_white_space_unfold. destruct s as [|c r].
    { intros _. by exists []. }
    destruct (strip_white_space (String c r)) as [r'|] eqn:Hr; [| done].
    intros (code_points & Hall & ->)%(IH _ eq_refl).
    apply strip_white_space_sound in Hr as (code_point & Hcp & ->).
    exists (code_point :: code_points). split; [by constructor | done].
  - intros (code_points & Hall & ->).
    induction Hall as [|code_point code_points Hcp Hall IH]; [done |].
    rewrite all_white_space_unfold. simpl.
    rewrite strip_white_space_utf8 by done.
    by destruct (utf8 code_point +:+ utf8_string code_points).
Qed.

Example trim_unicode_white_space :
  trim (utf8_string [0x3000; 0x20; 0x61; 0xA0; 0xE9; 0x2003; 0xFEFF; 0xA]%N)
  = utf8_string [0x61; 0xA0; 0xE9]%N.
Proof. reflexivity. Qed.

Lemma split_first_unfold (pat s : string) :
  split_first pat s
  = if String.prefix pat s
    then Some (EmptyString, str_drop (String.length pat) s)
    else match s with
         | EmptyString => None
         | String c r =>
             match split_first pat r with
             | Some (before, after) => Some (String c before, after)
             | None => None
             end
         end.
Proof. by destruct s. Qed.

(** [split_first] cuts the string around an occurrence of the pattern. *)
Lemma split_first_sound (pat s before after : string) :
  split_first pat s = Some (before, after) → s = before +:+ pat +:+ after.
Proof.
  revert before. induction s as [|c s IH]; intros before;
    rewrite split_first_unfold;
    destruct (String.prefix pat _) eqn:Hp.
  - apply prefix_app in Hp as [r Hr]. intros [= <- <-]. simpl.
    rewrite Hr at 2. by rewrite str_drop_app.
  - done.
  - apply prefix_app in Hp as [r Hr]. intros [= <- <-]. simpl.
    rewrite Hr at 2. by rewrite str_drop_app.
  - destruct (split_first pat s) as [[b a]|] eqn:Hs; [| done].
    intros [= <- <-]. simpl. by rewrite (IH b eq_refl).
Qed.

(** No occurrence of the pattern starts earlier. *)
Lemma split_first_earliest (pat s before after before' after' : string) :
  split_first pat s = Some (before, after) →
  s = before' +:+ pat +:+ after' →
  String.length before ≤ String.length before'.
Proof.
  revert before before'. induction s as [|c s IH]; intros before before';
    rewrite split_first_unfold;
    destruct (String.prefix pat _) eqn:Hp.
  - intros [= <- <-] _. simpl. lia.
  - done.
  - intros [= <- <-] _. simpl. lia.
  - destruct (split_first pat s) as [[b a]|] eqn:Hs; [| done].
    intros [= <- <-] Hocc. destruct before' as [|d before'].
    + simpl in Hocc.
      assert (String.prefix pat (String c s) = true); [| congruence].
      apply prefix_app. by exists after'.
    + simpl in Hocc. injection Hocc as <- Hocc. simpl.
      specialize (IH b before' eq_refl Hocc). lia.
Qed.

(** Where [split_first] finds nothing the pattern does not occur. *)
Lemma split_first_none (pat s before after : string) :
  split_first pat s = None → s ≠ before +:+ pat +:+ after.
Proof.
  revert before. induction s as [|c s IH]; intros before;
    rewrite split_first_unfold;
    destruct (String.prefix pat _) eqn:Hp; try done.
  - intros _ Hocc. destruct before; [| done]. simpl in Hocc.
    assert (String.prefix pat EmptyString = true); [| congruence].
    apply prefix_app. by exists after.
  - destruct (split_first pat s) as [[b a]|] eqn:Hs; [done |].
    intros _ Hocc. destruct before as [|d before].
    + simpl in Hocc.
      assert (String.prefix pat (String c s) = true); [| congruence].
      apply prefix_app. by exists after.
    + simpl in Hocc. injection Hocc as <- Hocc. by apply (IH before).
Qed.

(** A replacement text without dollar signs stands for itself. *)
Lemma GetSubstitution_no_dollar (matched before after template : string) :
  no_dollar template = true →
  GetSubstitution matched before after template = template.
Proof.
  induction template as [|c r IH]; [done |].
  intros [Hc Hr]%andb_true_iff. apply negb_true_iff in Hc.
  trans (String c (GetSubstitution matched before after r));
    [| by rewrite IH].
  destruct c as [[] [] [] [] [] [] [] []]; try reflexivity.
  by vm_compute in Hc.
Qed.

Example String_replace_first_only :
  String_replace "Paris to Paris" "Paris" "Rome" = "Rome to Paris".
Proof. reflexivity. Qed.

Example String_replace_absent :
  String_replace "Holiday" "Paris" "Rome" = "Holiday".
Proof. reflexivity. Qed.

Example String_replace_matched_text :
  String_replace "Paris - 2020" "Paris" "[$&]" = "[Paris] - 2020".
Proof. reflexivity. Qed.

Example String_replace_dollar_digit :
  String_replace "Paris - 2020" "Paris" "US$1" = "US$1 - 2020".
Proof. reflexivity. Qed.

Lemma String_replace_no_dollar (title old new : string) :
  no_dollar new = true →
  String_replace title old new = replace_first_occurrence title old new.
Proof.
  intros Hnew. unfold String_replace, replace_first_occurrence.
  destruct (split_first old title) as [[b a]|]; [| done].
  by rewrite GetSubstitution_no_dollar.
Qed.

(** With a new location that holds no dollar sign, the partial update of a
    record whose location is not "Unknown Location" rewrites the title by
    replacing the first occurrence of the old location with the new one. *)
Lemma location_update_rewrites_first_occurrence (memoryId : number)
    (newLocation : string) (env : Env) (st : AppState) (log : list Request)
    (i : nat) (memory : Memory) :
  memories st !! i = Some memory →
  num_strict_eq (id memory) memoryId = true →
  location memory ≠ "Unknown Location" →
  no_dollar newLocation = true →
  ∃ st' memory',
    handleLocationUpdate memoryId newLocation None env st log
      = (Returned (), st', log)
    ∧ memories st' !! i = Some memory'
    ∧ title memory'
      = replace_first_occurrence (title memory) (location memory) newLocation
    ∧ location memory' = newLocation.
Proof.
  intros Hi Hid Hloc Hplain. rewrite handleLocationUpdate_run.
  eexists _, _. split; [reflexivity |]. simpl.
  unfold handleLocationUpdate_updater. rewrite list_lookup_fmap, Hi. simpl.
  split; [reflexivity |]. unfold updateLocationOf. rewrite Hid. simpl.
  rewrite bool_decide_eq_false_2 by done.
  by rewrite String_replace_no_dollar.
Qed.

(** C5 (defect of the code): the partial update of a record whose location
    is not "Unknown Location" is claimed to put the new location in place of
    the first occurrence of the old one in the title.  The new location is
    handed to [replace] as a replacement pattern, in which [$$] stands for
    one dollar sign: for the new location "Bar $$" the title receives
    "Bar $", while the location field receives "Bar $$". *)
Theorem location_update_expands_dollar_patterns :
  ∃ st' memory',
    handleLocationUpdate (Finite 1) "Bar $$" None (unreachable None)
      (searched "x" [paris]) []
    = (Returned (), st', [])
    ∧ memories st' = [memory']
    ∧ location memory' = "Bar $$"
    ∧ title memory' = "Bar $ - 2020-05-01"
    ∧ replace_first_occurrence (title paris) (location paris) "Bar $$"
      = "Bar $$ - 2020-05-01".
Proof. eexists _, _. repeat split; reflexivity. Qed.

(** * More on [Array.prototype.sort] and [sortMemories] *)

(** A comparator that asks for no swap among the elements of the array
    leaves the array as it is. *)
Lemma Array_sort_no_swap_within {A} (comparefn : A → A → number) (l : list A) :
  (∀ a b, a ∈ l → b ∈ l → keeps_before comparefn a b) →
  Array_sort comparefn l = l.
Proof.
  induction l as [|x l IH]; intros Hk; simpl; [done |].
  rewrite IH by (intros a b Ha Hb; apply Hk; by right).
  destruct l as [|y l]; simpl; [done |].
  assert (Hxy : keeps_before comparefn x y).
  { apply Hk; [by left | right; by left]. }
  unfold keeps_before in Hxy. by destruct (num_sign (comparefn x y)).
Qed.

Section SortedWithin.
Context {A : Type} (comparefn : A → A → number) (P : A → Prop).
Hypothesis swap_total : ∀ a b,
  P a → P b → ¬ keeps_before comparefn a b → keeps_before comparefn b a.
Hypothesis keeps_trans : ∀ a b c,
  P a → P b → P c →
  keeps_before comparefn a b → keeps_before comparefn b c →
  keeps_before comparefn a c.

Lemma sort_insert_sorted_within (x : A) (l : list A) :
  P x → Forall P l →
  StronglySorted (keeps_before comparefn) l →
  StronglySorted (keeps_before comparefn) (sort_insert comparefn x l).
Proof.
  intros Hx HP Hs. induction Hs as [|y l Hl IH Hy]; simpl.
  - repeat constructor.
  - apply Forall_cons in HP as [HPy HPl].
    destruct (num_sign (comparefn x y)) eqn:Hsign.
    + assert (Hxy : keeps_before comparefn x y).
      { unfold keeps_before. by rewrite Hsign. }
      constructor; [by constructor |]. constructor; [done |].
      apply Forall_forall. intros z Hz.
      apply (keeps_trans x y z); try done.
      * by eapply Forall_forall in HPl.
      * by eapply Forall_forall in Hy.
    + assert (Hxy : keeps_before comparefn x y).
      { unfold keeps_before. by rewrite Hsign. }
      constructor; [by constructor |]. constructor; [done |].
      apply Forall_forall. intros z Hz.
      apply (keeps_trans x y z); try done.
      * by eapply Forall_forall in HPl.
      * by eapply Forall_forall in Hy.
    + constructor; [by apply IH |].
      rewrite sort_insert_Permutation. constructor; [| done].
      apply swap_total; try done. unfold keeps_before. rewrite Hsign.
      intros Hne. by apply Hne.
Qed.

Lemma Array_sort_sorted_within (l : list A) :
  Forall P l → StronglySorted (keeps_before comparefn) (Array_sort comparefn l).
Proof.
  induction l as [|x l IH]; intros HP; simpl; [constructor |].
  apply Forall_cons in HP as [Hx HP].
  apply sort_insert_sorted_within; [done | | by apply IH].
  by rewrite Array_sort_Permutation.
Qed.

End SortedWithin.

Section MoreSortFacts.
Variable Date_getTime : string → number.

Lemma compare_date_keeps (a b : Memory) :
  Date_getTime (date a) ≠ NaN → Date_getTime (date b) ≠ NaN →
  keeps_before (compareMemories Date_getTime ByDate) a b
  ↔ num_le (Date_getTime (date b)) (Date_getTime (date a)).
Proof.
  intros Ha Hb. unfold keeps_before. simpl. by apply num_sign_sub_not_Gt.
Qed.

Lemma compare_date_total (a b : Memory) :
  Date_getTime (date a) ≠ NaN → Date_getTime (date b) ≠ NaN →
  ¬ keeps_before (compareMemories Date_getTime ByDate) a b →
  keeps_before (compareMemories Date_getTime ByDate) b a.
Proof.
  intros Ha Hb Hn. apply compare_date_keeps; try done.
  destruct (num_le_total (Date_getTime (date a)) (Date_getTime (date b)))
    as [H | H]; try done.
  destruct Hn. by apply compare_date_keeps.
Qed.

Lemma compare_date_trans (a b c : Memory) :
  Date_getTime (date a) ≠ NaN → Date_getTime (date b) ≠ NaN →
  Date_getTime (date c) ≠ NaN →
  keeps_before (compareMemories Date_getTime ByDate) a b →
  keeps_before (compareMemories Date_getTime ByDate) b c →
  keeps_before (compareMemories Date_getTime ByDate) a c.
Proof.
  intros Ha Hb Hc Hab Hbc.
  apply compare_date_keeps in Hab; try done.
  apply compare_date_keeps in Hbc; try done.
  apply compare_date_keeps; try done. by eapply num_le_trans.
Qed.

Lemma sortMemories_date_descending_within (l : list Memory) :
  (∀ m, m ∈ l → Date_getTime (date m) ≠ NaN) →
  descending_by (λ m, Date_getTime (date m))
    (sortMemories Date_getTime l ByDate).
Proof.
  intros Hparsed. unfold descending_by, sortMemories.
  assert (Hall : Forall (λ m, Date_getTime (date m) ≠ NaN)
                   (Array_sort (compareMemories Date_getTime ByDate) l)).
  { rewrite Array_sort_Permutation. by apply Forall_forall. }
  assert (Hsorted : StronglySorted
                      (keeps_before (compareMemories Date_getTime ByDate))
                      (Array_sort (compareMemories Date_getTime ByDate) l)).
  { apply (Array_sort_sorted_within _ (λ m, Date_getTime (date m) ≠ NaN)).
    - apply compare_date_total.
    - apply compare_date_trans.
    - by apply Forall_forall. }
  revert Hall.
  induction Hsorted as [|x t Ht IH Hx]; intros Hall; constructor.
  - apply IH. by apply Forall_cons in Hall as [_ Hall].
  - apply Forall_cons in Hall as [Hpx Hall].
    apply Forall_forall. intros y Hy.
    apply (compare_date_keeps x y); [done | | by eapply Forall_forall in Hx].
    by eapply Forall_forall in Hall.
Qed.

Lemma sortMemories_date_ties_kept (l : list Memory) :
  stable_by (λ m, Date_getTime (date m)) l
    (sortMemories Date_getTime l ByDate).
Proof.
  intros w. unfold with_key, sortMemories. apply Array_sort_filter.
  intros x y Hx Hy. unfold keeps_before. simpl.
  pose proof (num_eq_not_nan _ _ Hx) as [Hpx _].
  pose proof (num_eq_not_nan _ _ Hy) as [Hpy _].
  apply num_sign_sub_not_Gt; [done | done |].
  apply num_eq_le. eapply num_eq_trans; [exact Hy | by apply num_eq_sym].
Qed.

(** Under the date criterion a store all of whose dates the host parses
    comes out in descending order of the parsed date, records of equal
    date in the order they had. *)
Theorem sortMemories_date_descending_stable (l : list Memory) :
  (∀ m, m ∈ l → Date_getTime (date m) ≠ NaN) →
  descending_by (λ m, Date_getTime (date m))
    (sortMemories Date_getTime l ByDate)
  ∧ stable_by (λ m, Date_getTime (date m)) l
      (sortMemories Date_getTime l ByDate).
Proof.
  intros Hparsed. split.
  - by apply sortMemories_date_descending_within.
  - apply sortMemories_date_ties_kept.
Qed.

(** Under the date criterion a store none of whose dates the host parses
    keeps its order. *)
Theorem sortMemories_unparsed_dates_unchanged (l : list Memory) :
  (∀ m, m ∈ l → Date_getTime (date m) = NaN) →
  sortMemories Date_getTime l ByDate = l.
Proof.
  intros Hnone. apply Array_sort_no_swap_within. intros a b Ha Hb.
  unfold keeps_before. simpl. by rewrite (Hnone a Ha), (Hnone b Hb).
Qed.

(** Sorting by weight a store that is sorted by weight changes nothing. *)
Theorem sortMemories_weight_idempotent (l : list Memory) :
  sortMemories Date_getTime (sortMemories Date_getTime l ByWeight) ByWeight
  = sortMemories Date_getTime l ByWeight.
Proof.
  unfold sortMemories. symmetry.
  apply Array_sort_unique;
    [apply compare_weight_refl | apply compare_weight_total
    | apply compare_weight_trans | | done].
  apply Array_sort_sorted;
    [apply compare_weight_total | apply compare_weight_trans].
Qed.

End MoreSortFacts.

Lemma sortMemories_date_descending_stable_witness :
  (∀ m, m ∈ [paris; oslo; nowhere] → sample_dates (date m) ≠ NaN)
  ∧ descending_by (λ m, sample_dates (date m))
      (sortMemories sample_dates [paris; oslo; nowhere] ByDate)
  ∧ stable_by (λ m, sample_dates (date m)) [paris; oslo; nowhere]
      (sortMemories sample_dates [paris; oslo; nowhere] ByDate).
Proof.
  assert (Hparsed : ∀ m, m ∈ [paris; oslo; nowhere] →
                      sample_dates (date m) ≠ NaN).
  { intros m Hin.
    apply elem_of_cons in Hin as [-> | Hin]; [discriminate |].
    apply elem_of_cons in Hin as [-> | Hin]; [discriminate |].
    apply elem_of_cons in Hin as [-> | Hin]; [discriminate |].
    by apply elem_of_nil in Hin. }
  split; [exact Hparsed |].
  exact (sortMemories_date_descending_stable sample_dates
           [paris; oslo; nowhere] Hparsed).
Defined.

(** The newest record comes first. *)
Example sortMemories_by_date_sample :
  sortMemories sample_dates [paris; oslo; nowhere] ByDate
  = [oslo; paris; nowhere].
Proof. reflexivity. Qed.

Lemma sortMemories_unparsed_dates_unchanged_witness :
  (∀ m, m ∈ [paris; oslo; nowhere] → no_dates (date m) = NaN)
  ∧ sortMemories no_dates [paris; oslo; nowhere] ByDate
    = [paris; oslo; nowhere].
Proof.
  assert (Hnone : ∀ m, m ∈ [paris; oslo; nowhere] → no_dates (date m) = NaN)
    by reflexivity.
  split; [exact Hnone |].
  exact (sortMemories_unparsed_dates_unchanged no_dates
           [paris; oslo; nowhere] Hnone).
Defined.

Lemma sortMemories_weight_as_specified_witness :
  (∀ m w, m ∈ [paris; nowhere; with_image] → weight m = Some w →
     num_truthy w = true)
  ∧ descending_by weight_or_default
      (sortMemories no_dates [paris; nowhere; with_image] ByWeight)
  ∧ stable_by weight_or_default [paris; nowhere; with_image]
      (sortMemories no_dates [paris; nowhere; with_image] ByWeight).
Proof.
  assert (Htruthy : ∀ m w, m ∈ [paris; nowhere; with_image] →
                      weight m = Some w → num_truthy w = true).
  { intros m w Hin Hw.
    apply elem_of_cons in Hin as [-> | Hin];
      [injection Hw as <-; reflexivity |].
    apply elem_of_cons in Hin as [-> | Hin]; [discriminate |].
    apply elem_of_cons in Hin as [-> | Hin]; [discriminate |].
    by apply elem_of_nil in Hin. }
  split; [exact Htruthy |].
  exact (sortMemories_weight_as_specified no_dates
           [paris; nowhere; with_image] Htruthy).
Defined.

Lemma sortMemories_weight_unique_witness :
  descending_by weight_or_one [nowhere; paris]
  ∧ stable_by weight_or_one [paris; nowhere] [nowhere; paris]
  ∧ [nowhere; paris] = sortMemories no_dates [paris; nowhere] ByWeight.
Proof.
  assert (Hd : descending_by weight_or_one [nowhere; paris]).
  { repeat constructor. simpl. lra. }
  assert (Hs : stable_by weight_or_one [paris; nowhere] [nowhere; paris]).
  { intros w. unfold with_key. rewrite !filter_cons, !filter_nil.
    destruct (decide (num_eq (weight_or_one nowhere) w)) as [Hn | Hn],
      (decide (num_eq (weight_or_one paris) w)) as [Hp | Hp]; try done.
    apply num_eq_sym in Hp.
    by pose proof (num_eq_trans _ _ _ Hn Hp). }
  split; [exact Hd |]. split; [exact Hs |].
  exact (sortMemories_weight_unique no_dates [paris; nowhere]
           [nowhere; paris] Hd Hs).
Defined.

(** * More on the handlers *)

(** Closes the conjuncts of a frame statement once the run is computed. *)
Ltac frame_done :=
  eexists _, _; (split; [reflexivity |]); simpl;
  repeat split; try done; try (by left); try (right; by eexists).

(** A search never throws, sends at most one request, and leaves the
    narrative, its keywords, the search term, the sort criterion, the memory
    type and the reset message as they were; unless the term is blank it
    ends with the loading flag off. *)
Theorem searchMemories_frame (env : Env) (st : AppState) (log : list Request) :
  ∃ st' log',
    searchMemories env st log = (Returned (), st', log')
    ∧ (log' = log ∨ ∃ request, log' = log ++ [request])
    ∧ narrative st' = narrative st
    ∧ highlightedKeywords st' = highlightedKeywords st
    ∧ searchTerm st' = searchTerm st
    ∧ sortBy st' = sortBy st
    ∧ memoryType st' = memoryType st
    ∧ resetMessage st' = resetMessage st
    ∧ (all_white_space (searchTerm st) = false → loading st' = false).
Proof.
  unfold searchMemories. handler_step. rewrite str_truthy_trim.
  destruct (all_white_space (searchTerm st)); simpl.
  { frame_done. }
  destruct (session_missing (url_session env)); simpl.
  { frame_done. }
  destruct (backend_search env _) as [err | data]; simpl; frame_done.
Qed.

(** Narrative generation never throws, sends at most one request, and
    leaves the memory store, the search term, the sort criterion, the memory
    type and the reset message as they were; unless the term is blank it
    ends with the loading flag off. *)
Theorem generateNarrative_frame (env : Env) (st : AppState)
    (log : list Request) :
  ∃ st' log',
    generateNarrative env st log = (Returned (), st', log')
    ∧ (log' = log ∨ ∃ request, log' = log ++ [request])
    ∧ memories st' = memories st
    ∧ searchTerm st' = searchTerm st
    ∧ sortBy st' = sortBy st
    ∧ memoryType st' = memoryType st
    ∧ resetMessage st' = resetMessage st
    ∧ (all_white_space (searchTerm st) = false → loading st' = false).
Proof.
  unfold generateNarrative. handler_step. rewrite str_truthy_trim.
  destruct (all_white_space (searchTerm st)); simpl.
  { frame_done. }
  destruct (session_missing (url_session env)); simpl.
  { frame_done. }
  destruct (backend_narrative env _) as [err | body]; simpl.
  { frame_done. }
  destruct body as [| |b|n|s|items|props]; simpl;
    try (frame_done; fail).
  destruct (ToBoolean (default VUndefined (props !! "narrative_text")));
    [| destruct (ToBoolean (default VUndefined (props !! "text")))]; simpl;
    (destruct (default VUndefined (props !! "keywords"))
       as [| |b|n|s|items|props']; simpl;
     try rewrite extract_keywords_contributions; simpl;
     try destruct b; try destruct (num_truthy n); try destruct s; simpl;
     frame_done).
Qed.

Lemma searchMemories_no_session_witness :
  all_white_space (searchTerm (searched "paris" [nowhere])) = false
  ∧ session_missing (url_session no_session) = true
  ∧ ∃ st',
      searchMemories no_session (searched "paris" [nowhere]) []
      = (Returned (), st', [])
      ∧ memories st' = [nowhere]
      ∧ error st' = Some no_session_message.
Proof.
  do 2 (split; [reflexivity |]).
  apply (searchMemories_no_session no_session (searched "paris" [nowhere]) []);
    reflexivity.
Defined.

(** The narrative an answer carries: its [narrative_text] if that is
    truthy, else its [text] if that is truthy, else the empty string. *)
Theorem generateNarrative_text_fallback (env : Env) (st : AppState)
    (log : list Request) (sid : string) (props : gmap string value) :
  all_white_space (searchTerm st) = false →
  url_session env = Some sid →
  str_truthy sid = true →
  backend_narrative env (GetNarrative sid (searchTerm st) (memoryType st))
    = inr (VObject props) →
  ∃ st' log',
    generateNarrative env st log = (Returned (), st', log')
    ∧ error st' = None
    ∧ narrative st'
      = if ToBoolean (default VUndefined (props !! "narrative_text"))
        then default VUndefined (props !! "narrative_text")
        else if ToBoolean (default VUndefined (props !! "text"))
             then default VUndefined (props !! "text")
             else VString EmptyString.
Proof.
  intros Hterm Hsid Htruthy Hreply.
  unfold generateNarrative. handler_step.
  rewrite str_truthy_trim, Hterm. simpl.
  rewrite Hsid. simpl. rewrite Htruthy. simpl. rewrite Hreply. simpl.
  destruct (ToBoolean (default VUndefined (props !! "narrative_text")));
    [| destruct (ToBoolean (default VUndefined (props !! "text")))]; simpl;
    (destruct (default VUndefined (props !! "keywords"))
       as [| |b|n|s|items|props']; simpl;
     try rewrite extract_keywords_contributions; simpl;
     try destruct b; try destruct (num_truthy n); try destruct s; simpl;
     eexists _, _; (split; [reflexivity |]); by simpl).
Qed.

Lemma generateNarrative_text_fallback_witness :
  all_white_space (searchTerm narrated) = false
  ∧ url_session bare_story = Some "s1"
  ∧ str_truthy "s1" = true
  ∧ backend_narrative bare_story (GetNarrative "s1" "cat" User)
    = inr (VObject {["text" := VString "A quiet day"]})
  ∧ ∃ st' log',
      generateNarrative bare_story narrated [] = (Returned (), st', log')
      ∧ error st' = None
      ∧ narrative st' = VString "A quiet day".
Proof.
  do 4 (split; [reflexivity |]).
  exact (generateNarrative_text_fallback bare_story narrated [] "s1"
           {["text" := VString "A quiet day"]}
           eq_refl eq_refl eq_refl eq_refl).
Defined.

(** An answer whose [keywords] is missing or is not a list clears the
    highlight keywords. *)
Theorem generateNarrative_without_keyword_list (env : Env) (st : AppState)
    (log : list Request) (sid : string) (props : gmap string value) :
  all_white_space (searchTerm st) = false →
  url_session env = Some sid →
  str_truthy sid = true →
  backend_narrative env (GetNarrative sid (searchTerm st) (memoryType st))
    = inr (VObject props) →
  isArray (default VUndefined (props !! "keywords")) = false →
  ∃ st' log',
    generateNarrative env st log = (Returned (), st', log')
    ∧ highlightedKeywords st' = [].
Proof.
  intros Hterm Hsid Htruthy Hreply Hlist.
  unfold generateNarrative. handler_step.
  rewrite str_truthy_trim, Hterm. simpl.
  rewrite Hsid. simpl. rewrite Htruthy. simpl. rewrite Hreply. simpl.
  destruct (ToBoolean (default VUndefined (props !! "narrative_text")));
    [| destruct (ToBoolean (default VUndefined (props !! "text")))]; simpl;
    (destruct (default VUndefined (props !! "keywords"))
       as [| |b|n|s|items|props']; simpl; try done;
     try destruct b; try destruct (num_truthy n); try destruct s; simpl;
     eexists _, _; (split; [reflexivity |]); by simpl).
Qed.

Lemma generateNarrative_without_keyword_list_witness :
  all_white_space (searchTerm narrated) = false
  ∧ url_session bare_story = Some "s1"
  ∧ str_truthy "s1" = true
  ∧ backend_narrative bare_story (GetNarrative "s1" "cat" User)
    = inr (VObject {["text" := VString "A quiet day"]})
  ∧ isArray (default VUndefined
               (({["text" := VString "A quiet day"]} : gmap string value)
                  !! "keywords")) = false
  ∧ highlightedKeywords narrated = [VString "older"]
  ∧ ∃ st' log',
      generateNarrative bare_story narrated [] = (Returned (), st', log')
      ∧ highlightedKeywords st' = [].
Proof.
  do 6 (split; [reflexivity |]).
  apply (generateNarrative_without_keyword_list bare_story narrated [] "s1"
           {["text" := VString "A quiet day"]}); reflexivity.
Defined.

(** A rejected narrative request keeps the narrative and its keywords and
    shows the message of the rejection. *)
Theorem generateNarrative_rejected (env : Env) (st : AppState)
    (log : list Request) (sid : string) (err : thrown) :
  all_white_space (searchTerm st) = false →
  url_session env = Some sid →
  str_truthy sid = true →
  backend_narrative env (GetNarrative sid (searchTerm st) (memoryType st))
    = inl err →
  ∃ st',
    generateNarrative env st log
      = (Returned (), st',
         log ++ [GetNarrative sid (searchTerm st) (memoryType st)])
    ∧ narrative st' = narrative st
    ∧ highlightedKeywords st' = highlightedKeywords st
    ∧ error st' = Some (error_message err)
    ∧ loading st' = false.
Proof.
  intros Hterm Hsid Htruthy Hreply.
  unfold generateNarrative. handler_step.
  rewrite str_truthy_trim, Hterm. simpl.
  rewrite Hsid. simpl. rewrite Htruthy. simpl. rewrite Hreply. simpl.
  eexists. split; [reflexivity |]. by simpl.
Qed.

Lemma generateNarrative_rejected_witness :
  all_white_space (searchTerm narrated) = false
  ∧ url_session offline = Some "s1"
  ∧ str_truthy "s1" = true
  ∧ backend_narrative offline (GetNarrative "s1" "cat" User)
    = inl (ErrorObject "Network Error")
  ∧ ∃ st',
      generateNarrative offline narrated []
        = (Returned (), st', [GetNarrative "s1" "cat" User])
      ∧ narrative st' = VString "An older story"
      ∧ highlightedKeywords st' = [VString "older"]
      ∧ error st' = Some "Network Error"
      ∧ loading st' = false.
Proof.
  do 4 (split; [reflexivity |]).
  apply (generateNarrative_rejected offline narrated [] "s1"
           (ErrorObject "Network Error")); reflexivity.
Defined.

(** An answer whose body is null or undefined keeps the narrative and its
    keywords and shows the message of the TypeError. *)
Theorem generateNarrative_null_body (env : Env) (st : AppState)
    (log : list Request) (sid : string) (body : value) :
  all_white_space (searchTerm st) = false →
  url_session env = Some sid →
  str_truthy sid = true →
  backend_narrative env (GetNarrative sid (searchTerm st) (memoryType st))
    = inr body →
  body = VNull ∨ body = VUndefined →
  ∃ st',
    generateNarrative env st log
      = (Returned (), st',
         log ++ [GetNarrative sid (searchTerm st) (memoryType st)])
    ∧ narrative st' = narrative st
    ∧ highlightedKeywords st' = highlightedKeywords st
    ∧ error st' = Some (TypeError_message env)
    ∧ loading st' = false.
Proof.
  intros Hterm Hsid Htruthy Hreply Hbody.
  unfold generateNarrative. handler_step.
  rewrite str_truthy_trim, Hterm. simpl.
  rewrite Hsid. simpl. rewrite Htruthy. simpl. rewrite Hreply. simpl.
  destruct Hbody as [-> | ->]; simpl; eexists; (split; [reflexivity |]);
    by simpl.
Qed.

Lemma generateNarrative_null_body_witness :
  all_white_space (searchTerm narrated) = false
  ∧ url_session null_story = Some "s1"
  ∧ str_truthy "s1" = true
  ∧ backend_narrative null_story (GetNarrative "s1" "cat" User) = inr VNull
  ∧ (VNull = VNull ∨ VNull = VUndefined)
  ∧ ∃ st',
      generateNarrative null_story narrated []
        = (Returned (), st', [GetNarrative "s1" "cat" User])
      ∧ narrative st' = VString "An older story"
      ∧ highlightedKeywords st' = [VString "older"]
      ∧ error st' = Some "Cannot read properties of null"
      ∧ loading st' = false.
Proof.
  do 4 (split; [reflexivity |]). split; [by left |].
  apply (generateNarrative_null_body null_story narrated [] "s1" VNull);
    try reflexivity. by left.
Defined.

Section MoreWeightFacts.
Variable Date_getTime : string → number.



(** Without a session in the URL neither weight handler sends a request;
    the store stays as it was and the session error is shown. *)
Theorem weight_adjust_without_session (memory_id : number) (env : Env)
    (st : AppState) (log : list Request) :
  session_missing (url_session env) = true →
  handleIncreaseWeight Date_getTime memory_id env st log
    = (Returned (), state_with_error st (Some no_session_message), log)
  ∧ handleDecreaseWeight Date_getTime memory_id env st log
    = (Returned (), state_with_error st (Some no_session_message), log).
Proof.
  intros Hmissing.
  unfold handleIncreaseWeight, handleDecreaseWeight. handler_step.
  by rewrite Hmissing.
Qed.






(** Under the relevance criterion a successful weight adjustment keeps
    every record at its position. *)
Theorem weight_adjust_keeps_relevance_order (memory_id : number) (env : Env)
    (st : AppState) (log : list Request) (sid : string)
    (up down : AdjustResponse) :
  sortBy st = ByRelevance →
  url_session env = Some sid →
  str_truthy sid = true →
  backend_adjust_weight env (PostAdjustWeight memory_id sid (Finite (1 # 10)))
    = inr up →
  backend_adjust_weight env (PostAdjustWeight memory_id sid (Finite (- 1 # 10)))
    = inr down →
  ∃ st_up st_down log_up log_down,
    handleIncreaseWeight Date_getTime memory_id env st log
      = (Returned (), st_up, log_up)
    ∧ handleDecreaseWeight Date_getTime memory_id env st log
      = (Returned (), st_down, log_down)
    ∧ memories st_up = increased up memory_id <$> memories st
    ∧ memories st_down = decreased down memory_id <$> memories st.
Proof.
  intros Hsort Hsid Htruthy Hup Hdown.
  rewrite (handleIncreaseWeight_run Date_getTime memory_id env st log sid up)
    by done.
  rewrite (handleDecreaseWeight_run Date_getTime memory_id env st log sid down)
    by done.
  eexists _, _, _, _. split; [reflexivity |]. split; [reflexivity |]. simpl.
  rewrite Hsort.
  split; apply Array_sort_never_swap; intros a b; by unfold keeps_before.
Qed.

(** A successful weight adjustment for an identifier that matches no
    record changes no record: the store afterwards is a rearrangement of
    the store before. *)
Theorem weight_adjust_without_match (memory_id : number) (env : Env)
    (st : AppState) (log : list Request) (sid : string)
    (up down : AdjustResponse) :
  (∀ m, m ∈ memories st → num_strict_eq (id m) memory_id = false) →
  url_session env = Some sid →
  str_truthy sid = true →
  backend_adjust_weight env (PostAdjustWeight memory_id sid (Finite (1 # 10)))
    = inr up →
  backend_adjust_weight env (PostAdjustWeight memory_id sid (Finite (- 1 # 10)))
    = inr down →
  ∃ st_up st_down log_up log_down,
    handleIncreaseWeight Date_getTime memory_id env st log
      = (Returned (), st_up, log_up)
    ∧ handleDecreaseWeight Date_getTime memory_id env st log
      = (Returned (), st_down, log_down)
    ∧ memories st_up ≡ₚ memories st
    ∧ memories st_down ≡ₚ memories st.
Proof.
  intros Hnone Hsid Htruthy Hup Hdown.
  rewrite (handleIncreaseWeight_run Date_getTime memory_id env st log sid up)
    by done.
  rewrite (handleDecreaseWeight_run Date_getTime memory_id env st log sid down)
    by done.
  eexists _, _, _, _. split; [reflexivity |]. split; [reflexivity |]. simpl.
  assert (Hup_id : increased up memory_id <$> memories st = memories st).
  { rewrite <- (list_fmap_id (memories st)) at 2.
    apply list_fmap_ext. intros i m Hm. unfold increased.
    rewrite Hnone; [done |]. by eapply list_elem_of_lookup_2. }
  assert (Hdown_id : decreased down memory_id <$> memories st = memories st).
  { rewrite <- (list_fmap_id (memories st)) at 2.
    apply list_fmap_ext. intros i m Hm. unfold decreased.
    rewrite Hnone; [done |]. by eapply list_elem_of_lookup_2. }
  rewrite Hup_id, Hdown_id. split; apply sortMemories_Permutation.
Qed.

End MoreWeightFacts.


(** From the weight order to the date order: the newest record first. *)
Example handleSortChange_by_date_sample :
  ∃ st',
    handleSortChange sample_dates ByDate online
      (searched "x" [paris; oslo; nowhere]) []
    = (Returned (), st', [])
    ∧ sortBy st' = ByDate
    ∧ memories st' = [oslo; paris; nowhere].
Proof. eexists. split; [reflexivity |]. split; reflexivity. Qed.

Lemma weight_adjust_without_session_witness :
  session_missing (url_session no_session) = true
  ∧ handleIncreaseWeight no_dates (Finite 1) no_session
      (searched "x" [oslo; paris]) []
    = (Returned (),
       state_with_error (searched "x" [oslo; paris])
         (Some no_session_message), [])
  ∧ handleDecreaseWeight no_dates (Finite 1) no_session
      (searched "x" [oslo; paris]) []
    = (Returned (),
       state_with_error (searched "x" [oslo; paris])
         (Some no_session_message), []).
Proof.
  split; [reflexivity |].
  exact (weight_adjust_without_session no_dates (Finite 1) no_session
           (searched "x" [oslo; paris]) [] eq_refl).
Defined.




Lemma weight_adjust_keeps_relevance_order_witness :
  sortBy (state_with_sortBy (searched "x" [oslo; nowhere; paris]) ByRelevance)
    = ByRelevance
  ∧ url_session online = Some "s1"
  ∧ str_truthy "s1" = true
  ∧ backend_adjust_weight online raise_paris = inr adjusted_to_1_1
  ∧ backend_adjust_weight online lower_paris = inr adjusted_to_1_1
  ∧ ∃ st_up st_down log_up log_down,
      handleIncreaseWeight no_dates (Finite 1) online
        (state_with_sortBy (searched "x" [oslo; nowhere; paris]) ByRelevance)
        []
        = (Returned (), st_up, log_up)
      ∧ handleDecreaseWeight no_dates (Finite 1) online
          (state_with_sortBy (searched "x" [oslo; nowhere; paris])
             ByRelevance)
          []
        = (Returned (), st_down, log_down)
      ∧ memories st_up
        = increased adjusted_to_1_1 (Finite 1) <$> [oslo; nowhere; paris]
      ∧ memories st_down
        = decreased adjusted_to_1_1 (Finite 1) <$> [oslo; nowhere; paris].
Proof.
  do 5 (split; [reflexivity |]).
  exact (weight_adjust_keeps_relevance_order no_dates (Finite 1) online
           (state_with_sortBy (searched "x" [oslo; nowhere; paris])
              ByRelevance)
           [] "s1" adjusted_to_1_1 adjusted_to_1_1
           eq_refl eq_refl eq_refl eq_refl eq_refl).
Defined.

(** * More on location updates *)

(** A location update, partial or with a full record, sends no request,
    keeps the length of the store and every slot of the state but the
    store, and leaves every record the identifier does not match where it
    is and as it is: the store is not sorted again. *)
Theorem location_update_frame (memoryId : number) (newLocation : string)
    (updatedMemory : option Partial.t) (env : Env) (st : AppState)
    (log : list Request) :
  ∃ st',
    handleLocationUpdate memoryId newLocation updatedMemory env st log
      = (Returned (), st', log)
    ∧ length (memories st') = length (memories st)
    ∧ (∀ i m, memories st !! i = Some m →
         num_strict_eq (id m) memoryId = false →
         memories st' !! i = Some m)
    ∧ st' = state_with_memories st (memories st').
Proof.
  rewrite handleLocationUpdate_run. eexists. split; [reflexivity |]. simpl.
  unfold handleLocationUpdate_updater. rewrite length_fmap.
  repeat split; try done.
  intros i m Hi Hid. rewrite list_lookup_fmap, Hi. simpl.
  unfold updateLocationOf. by rewrite Hid.
Qed.

(** The partial update of a matching record touches its location and its
    title only: with the old location and title put back, the record is
    the one it was. *)
Theorem location_update_partial_touches_two_fields (memoryId : number)
    (newLocation : string) (env : Env) (st : AppState) (log : list Request)
    (i : nat) (memory : Memory) :
  memories st !! i = Some memory →
  num_strict_eq (id memory) memoryId = true →
  ∃ st' memory',
    handleLocationUpdate memoryId newLocation None env st log
      = (Returned (), st', log)
    ∧ memories st' !! i = Some memory'
    ∧ location memory' = newLocation
    ∧ with_location_title memory' (location memory) (title memory) = memory.
Proof.
  intros Hi Hid. rewrite handleLocationUpdate_run.
  eexists _, _. split; [reflexivity |]. simpl.
  unfold handleLocationUpdate_updater. rewrite list_lookup_fmap, Hi. simpl.
  split; [reflexivity |]. unfold updateLocationOf. rewrite Hid. simpl.
  split; [done |]. by destruct memory.
Qed.

Lemma location_update_partial_touches_two_fields_witness :
  memories (searched "x" [paris; oslo]) !! 0 = Some paris
  ∧ num_strict_eq (id paris) (Finite 1) = true
  ∧ ∃ st' memory',
      handleLocationUpdate (Finite 1) "Rome" None online
        (searched "x" [paris; oslo]) []
        = (Returned (), st', [])
      ∧ memories st' !! 0 = Some memory'
      ∧ location memory' = "Rome"
      ∧ with_location_title memory' (location paris) (title paris) = paris.
Proof.
  do 2 (split; [reflexivity |]).
  exact (location_update_partial_touches_two_fields (Finite 1) "Rome" online
           (searched "x" [paris; oslo]) [] 0 paris eq_refl eq_refl).
Defined.

Lemma location_update_rewrites_first_occurrence_witness :
  memories (searched "x" [paris; oslo]) !! 0 = Some paris
  ∧ num_strict_eq (id paris) (Finite 1) = true
  ∧ location paris ≠ "Unknown Location"
  ∧ no_dollar "Rome" = true
  ∧ ∃ st' memory',
      handleLocationUpdate (Finite 1) "Rome" None online
        (searched "x" [paris; oslo]) []
        = (Returned (), st', [])
      ∧ memories st' !! 0 = Some memory'
      ∧ title memory' = "Rome - 2020-05-01"
      ∧ location memory' = "Rome".
Proof.
  assert (Hloc : location paris ≠ "Unknown Location") by discriminate.
  do 2 (split; [reflexivity |]). split; [exact Hloc |].
  split; [reflexivity |].
  exact (location_update_rewrites_first_occurrence (Finite 1) "Rome" online
           (searched "x" [paris; oslo]) [] 0 paris
           eq_refl eq_refl Hloc eq_refl).
Defined.

(** Where the title does not hold the old location, the partial update of
    a record whose location is not "Unknown Location" leaves the title as
    it is, whatever the new location. *)
Theorem location_update_title_without_location (memoryId : number)
    (newLocation : string) (env : Env) (st : AppState) (log : list Request)
    (i : nat) (memory : Memory) :
  memories st !! i = Some memory →
  num_strict_eq (id memory) memoryId = true →
  location memory ≠ "Unknown Location" →
  (∀ before after,
     title memory ≠ before +:+ location memory +:+ after) →
  ∃ st' memory',
    handleLocationUpdate memoryId newLocation None env st log
      = (Returned (), st', log)
    ∧ memories st' !! i = Some memory'
    ∧ title memory' = title memory
    ∧ location memory' = newLocation.
Proof.
  intros Hi Hid Hloc Habsent. rewrite handleLocationUpdate_run.
  eexists _, _. split; [reflexivity |]. simpl.
  unfold handleLocationUpdate_updater. rewrite list_lookup_fmap, Hi. simpl.
  split; [reflexivity |]. unfold updateLocationOf. rewrite Hid. simpl.
  rewrite bool_decide_eq_false_2 by done. split; [| done].
  unfold String_replace.
  destruct (split_first (location memory) (title memory))
    as [[before after] |] eqn:Hsplit; [| done].
  apply split_first_sound in Hsplit. by destruct (Habsent before after).
Qed.

Lemma location_update_title_without_location_witness :
  memories (searched "x" [untitled]) !! 0 = Some untitled
  ∧ num_strict_eq (id untitled) (Finite 5) = true
  ∧ location untitled ≠ "Unknown Location"
  ∧ (∀ before after,
       title untitled ≠ before +:+ location untitled +:+ after)
  ∧ ∃ st' memory',
      handleLocationUpdate (Finite 5) "Bar $$" None online
        (searched "x" [untitled]) []
        = (Returned (), st', [])
      ∧ memories st' !! 0 = Some memory'
      ∧ title memory' = "Holiday"
      ∧ location memory' = "Bar $$".
Proof.
  assert (Hloc : location untitled ≠ "Unknown Location") by discriminate.
  assert (Habsent : ∀ before after,
            title untitled ≠ before +:+ location untitled +:+ after).
  { intros before after. by apply split_first_none. }
  do 2 (split; [reflexivity |]). split; [exact Hloc |].
  split; [exact Habsent |].
  exact (location_update_title_without_location (Finite 5) "Bar $$" online
           (searched "x" [untitled]) [] 0 untitled
           eq_refl eq_refl Hloc Habsent).
Defined.

Lemma replace_first_occurrence_same (title x : string) :
  replace_first_occurrence title x x = title.
Proof.
  unfold replace_first_occurrence.
  destruct (split_first x title) as [[before after] |] eqn:Hsplit; [| done].
  by apply split_first_sound in Hsplit.
Qed.

Lemma updateLocationOf_idempotent (memoryId : number) (newLocation : string)
    (memory : Memory) :
  no_dollar newLocation = true →
  newLocation ≠ "Unknown Location" →
  updateLocationOf memoryId newLocation None
    (updateLocationOf memoryId newLocation None memory)
  = updateLocationOf memoryId newLocation None memory.
Proof.
  intros Hplain Hnew. unfold updateLocationOf at 2.
  destruct (num_strict_eq (id memory) memoryId) eqn:Hid.
  - unfold updateLocationOf. simpl. rewrite Hid.
    rewrite (bool_decide_eq_false_2 (newLocation = Unknown_Location)) by done.
    rewrite !String_replace_no_dollar by done.
    by rewrite replace_first_occurrence_same.
  - unfold updateLocationOf. by rewrite Hid.
Qed.

(** The partial update is idempotent for a new location that holds no
    dollar sign and is not "Unknown Location": applying it a second time
    changes nothing. *)
Theorem location_update_idempotent (memoryId : number) (newLocation : string)
    (env : Env) (st : AppState) (log : list Request) :
  no_dollar newLocation = true →
  newLocation ≠ "Unknown Location" →
  ∃ st',
    handleLocationUpdate memoryId newLocation None env st log
      = (Returned (), st', log)
    ∧ handleLocationUpdate memoryId newLocation None env st' log
      = (Returned (), st', log).
Proof.
  intros Hplain Hnew. rewrite handleLocationUpdate_run.
  eexists. split; [reflexivity |].
  rewrite handleLocationUpdate_run. simpl.
  unfold handleLocationUpdate_updater, state_with_memories. simpl.
  rewrite <- list_fmap_compose.
  do 2 f_equal. f_equal. apply list_fmap_ext. intros i m _. simpl.
  by apply updateLocationOf_idempotent.
Qed.

Lemma location_update_idempotent_witness :
  no_dollar "Rome" = true
  ∧ "Rome" ≠ "Unknown Location"
  ∧ ∃ st',
      handleLocationUpdate (Finite 3) "Rome" None online
        (searched "x" [paris; nowhere]) []
        = (Returned (), st', [])
      ∧ handleLocationUpdate (Finite 3) "Rome" None online st' []
        = (Returned (), st', []).
Proof.
  assert (Hnew : "Rome" ≠ "Unknown Location") by discriminate.
  split; [reflexivity |]. split; [exact Hnew |].
  exact (location_update_idempotent (Finite 3) "Rome" online
           (searched "x" [paris; nowhere]) [] eq_refl Hnew).
Defined.

(** With a full record of the backend whose [impact_weight] is truthy and
    which carries [openai_keywords], the matching record ends with its
    [weight] equal to its [impact_weight] and its [keywords] equal to its
    [openai_keywords], both taken from the full record. *)
Theorem location_update_full_record_mirrors (memoryId : number)
    (newLocation : string) (updated : Partial.t) (env : Env) (st : AppState)
    (log : list Request) (i : nat) (memory : Memory) (w : number)
    (k : list string) :
  memories st !! i = Some memory →
  num_strict_eq (id memory) memoryId = true →
  Partial.impact_weight updated = Some w →
  num_truthy w = true →
  Partial.openai_keywords updated = Some k →
  ∃ st' memory',
    handleLocationUpdate memoryId newLocation (Some updated) env st log
      = (Returned (), st', log)
    ∧ memories st' !! i = Some memory'
    ∧ weight memory' = Some w ∧ impact_weight memory' = Some w
    ∧ keywords memory' = Some k ∧ openai_keywords memory' = Some k.
Proof.
  intros Hi Hid Hw Htruthy Hk. rewrite handleLocationUpdate_run.
  eexists _, _. split; [reflexivity |]. simpl.
  unfold handleLocationUpdate_updater. rewrite list_lookup_fmap, Hi. simpl.
  split; [reflexivity |]. unfold updateLocationOf. rewrite Hid. simpl.
  rewrite Hw, Hk. simpl. by rewrite Htruthy.
Qed.

Lemma location_update_full_record_mirrors_witness :
  memories (searched "x" [paris; oslo]) !! 1 = Some oslo
  ∧ num_strict_eq (id oslo) (Finite 2) = true
  ∧ Partial.impact_weight oslo_in_rome = Some (Finite (3 # 2))
  ∧ num_truthy (Finite (3 # 2)) = true
  ∧ Partial.openai_keywords oslo_in_rome = Some ["rome"; "summer"]
  ∧ ∃ st' memory',
      handleLocationUpdate (Finite 2) "Rome" (Some oslo_in_rome) online
        (searched "x" [paris; oslo]) []
        = (Returned (), st', [])
      ∧ memories st' !! 1 = Some memory'
      ∧ weight memory' = Some (Finite (3 # 2))
      ∧ impact_weight memory' = Some (Finite (3 # 2))
      ∧ keywords memory' = Some ["rome"; "summer"]
      ∧ openai_keywords memory' = Some ["rome"; "summer"].
Proof.
  do 5 (split; [reflexivity |]).
  exact (location_update_full_record_mirrors (Finite 2) "Rome" oslo_in_rome
           online (searched "x" [paris; oslo]) [] 1 oslo (Finite (3 # 2))
           ["rome"; "summer"] eq_refl eq_refl eq_refl eq_refl eq_refl).
Defined.

(** With a full record the [newLocation] argument is not used: the
    location comes from the full record, or stays the old one where the
    full record has none. *)
Theorem location_update_full_record_ignores_argument (memoryId : number)
    (newLocation otherLocation : string) (updated : Partial.t) (env : Env)
    (st : AppState) (log : list Request) :
  handleLocationUpdate memoryId newLocation (Some updated) env st log
  = handleLocationUpdate memoryId otherLocation (Some updated) env st log
  ∧ ∃ st',
      handleLocationUpdate memoryId newLocation (Some updated) env st log
        = (Returned (), st', log)
      ∧ ∀ i memory memory',
          memories st !! i = Some memory →
          memories st' !! i = Some memory' →
          num_strict_eq (id memory) memoryId = true →
          location memory'
          = default (location memory) (Partial.location updated).
Proof.
  rewrite !handleLocationUpdate_run. split; [done |].
  eexists. split; [reflexivity |]. simpl.
  intros i memory memory' Hi Hi' Hid.
  unfold handleLocationUpdate_updater in Hi'.
  rewrite list_lookup_fmap, Hi in Hi'. simpl in Hi'.
  injection Hi' as <-. unfold updateLocationOf. by rewrite Hid.
Qed.

(** * [getThumbnailUrl] *)

Lemma str_or_truthy (x : option string) (d : string) :
  str_truthy d = true → str_truthy (str_or x d) = true.
Proof.
  intros Hd. unfold str_or. destruct x as [s|]; [| done].
  by destruct (str_truthy s) eqn:Hs.
Qed.

Lemma str_truthy_app (a b : string) :
  str_truthy a = true → str_truthy (a +:+ b) = true.
Proof. by destruct a. Qed.

(** The thumbnail URL is never the empty string: it is the placeholder
    image or it starts with the backend URL, which is the configured one
    or, where none is configured, "http://localhost:8000". *)
Theorem getThumbnailUrl_usable (REACT_APP_BACKEND_URL : option string)
    (env : Env) (memory : Memory) :
  str_truthy (getThumbnailUrl REACT_APP_BACKEND_URL env memory) = true
  ∧ (getThumbnailUrl REACT_APP_BACKEND_URL env memory = placeholder_image
     ∨ ∃ path,
         getThumbnailUrl REACT_APP_BACKEND_URL env memory
         = str_or REACT_APP_BACKEND_URL default_backend_url +:+ path).
Proof.
  unfold getThumbnailUrl.
  destruct (opt_str_truthy (image_url memory)).
  { split; [by apply str_truthy_app, str_or_truthy | right; by eexists]. }
  destruct (opt_str_truthy (filename memory)); simpl; [| by split; [| left]].
  destruct (session_missing (url_session env)); [by split; [| left] |].
  split; [by apply str_truthy_app, str_or_truthy | right; by eexists].
Qed.

(** A record without a stored image gets the placeholder unless both a
    file name and a session are at hand; with both, the URL names the
    session, the type of the record and the file. *)
Lemma getThumbnailUrl_from_file (REACT_APP_BACKEND_URL : option string)
    (env : Env) (memory : Memory) :
  opt_str_truthy (image_url memory) = false →
  getThumbnailUrl REACT_APP_BACKEND_URL env memory
  = match filename memory, url_session env with
    | Some file, Some sid =>
        if str_truthy file && str_truthy sid
        then str_or REACT_APP_BACKEND_URL default_backend_url
             +:+ "/api/static_content/" +:+ sid +:+ "/" +:+ type memory
             +:+ "/" +:+ file
        else placeholder_image
    | _, _ => placeholder_image
    end.
Proof.
  intros Himage. unfold getThumbnailUrl. rewrite Himage.
  destruct (filename memory) as [file|]; simpl; [| done].
  destruct (str_truthy file); simpl; [| by destruct (url_session env)].
  destruct (url_session env) as [sid|]; simpl; [| done].
  by destruct (str_truthy sid).
Qed.

(** * [handleResetComplete] *)

Lemma not_blank_truthy (s : string) :
  all_white_space s = false → str_truthy s = true.
Proof. by destruct s. Qed.

Section ResetFacts.
Variable Number_toString : number → string.

(** A reset that did not succeed shows the message of the answer, or
    "Failed to reset weights" where the answer has none; it sets no timer,
    sends no request and leaves the rest of the state as it was. *)
Theorem handleResetComplete_failure (data : ResetData) (env : Env)
    (st : AppState) (log : list Request) :
  status data ≠ "success" →
  handleResetComplete Number_toString data env st log
  = (Returned [],
     state_with_error st
       (Some (str_or (message data) "Failed to reset weights")),
     log).
Proof.
  intros Hstatus. unfold handleResetComplete. handler_step.
  by rewrite bool_decide_eq_false_2.
Qed.

(** A successful reset with no search term or an empty store shows
    "Reset n memories successfully!", sends no request, and sets one timer
    of 3000 ms; when the timer fires the message is cleared and nothing
    else changes. *)
Theorem handleResetComplete_success_idle (data : ResetData) (env : Env)
    (st : AppState) (log : list Request) :
  status data = "success" →
  searchTerm st = EmptyString ∨ memories st = [] →
  ∃ timer,
    handleResetComplete Number_toString data env st log
    = (Returned [timer],
       state_with_resetMessage st
         (Some ("Reset " +:+ Number_toString (updated_count data)
                +:+ " memories successfully!")),
       log)
    ∧ delay_ms timer = 3000%N
    ∧ ∀ env' st' log',
        on_fire timer env' st' log'
        = (Returned (), state_with_resetMessage st' None, log').
Proof.
  intros Hstatus Hidle. unfold handleResetComplete. handler_step.
  rewrite bool_decide_eq_true_2 by done. simpl.
  assert (Hno : str_truthy (searchTerm st)
                && bool_decide (0 < length (memories st)) = false).
  { destruct Hidle as [-> | ->]; [done |]. simpl. apply andb_false_r. }
  rewrite Hno. simpl. eexists. split; [reflexivity |]. by split.
Qed.

(** A successful reset while results of a search are shown runs the search
    again: the store becomes the new answer of the backend, the message
    "Reset n memories successfully!" is shown and one timer is set. *)
Theorem handleResetComplete_success_refreshes (data : ResetData) (env : Env)
    (st : AppState) (log : list Request) (sid : string)
    (fresh_data : list Memory) :
  status data = "success" →
  all_white_space (searchTerm st) = false →
  memories st ≠ [] →
  url_session env = Some sid →
  str_truthy sid = true →
  backend_search env
    (GetSearch sid (searchTerm st) (memoryType st) (sortBy st))
    = inr fresh_data →
  ∃ timer st',
    handleResetComplete Number_toString data env st log
    = (Returned [timer], st',
       log ++ [GetSearch sid (searchTerm st) (memoryType st) (sortBy st)])
    ∧ memories st' = fresh_data
    ∧ resetMessage st'
      = Some ("Reset " +:+ Number_toString (updated_count data)
              +:+ " memories successfully!")
    ∧ error st' = None
    ∧ delay_ms timer = 3000%N.
Proof.
  intros Hstatus Hterm Hstore Hsid Htruthy Hreply.
  unfold handleResetComplete, searchMemories. handler_step.
  rewrite bool_decide_eq_true_2 by done. simpl.
  rewrite (not_blank_truthy _ Hterm).
  destruct (memories st) as [|m l] eqn:Hm; [done |]. simpl.
  rewrite str_truthy_trim, Hterm. simpl.
  rewrite Hsid. simpl. rewrite Htruthy. simpl. rewrite Hreply. simpl.
  eexists _, _. split; [reflexivity |]. by simpl.
Qed.

(** A successful reset while results are shown and the search box holds
    white space only shows the success message and, from the search it
    starts, the error "Please enter a search term"; no request is sent. *)
Theorem handleResetComplete_blank_term (data : ResetData) (env : Env)
    (st : AppState) (log : list Request) :
  status data = "success" →
  searchTerm st ≠ EmptyString →
  all_white_space (searchTerm st) = true →
  memories st ≠ [] →
  ∃ timer st',
    handleResetComplete Number_toString data env st log
    = (Returned [timer], st', log)
    ∧ memories st' = memories st
    ∧ resetMessage st'
      = Some ("Reset " +:+ Number_toString (updated_count data)
              +:+ " memories successfully!")
    ∧ error st' = Some "Please enter a search term".
Proof.
  intros Hstatus Hterm Hblank Hstore.
  unfold handleResetComplete, searchMemories. handler_step.
  rewrite bool_decide_eq_true_2 by done. simpl.
  assert (Htruthy : str_truthy (searchTerm st) = true)
    by (by destruct (searchTerm st)).
  rewrite Htruthy.
  destruct (memories st) as [|m l] eqn:Hm; [done |]. simpl.
  rewrite str_truthy_trim, Hblank. simpl.
  eexists _, _. split; [reflexivity |]. by simpl.
Qed.

End ResetFacts.

Lemma handleResetComplete_failure_witness :
  status reset_failed ≠ "success"
  ∧ handleResetComplete print_small reset_failed online
      (searched "x" [paris]) []
    = (Returned [], state_with_error (searched "x" [paris]) (Some "x"), []).
Proof.
  assert (Hstatus : status reset_failed ≠ "success") by discriminate.
  split; [exact Hstatus |].
  exact (handleResetComplete_failure print_small reset_failed online
           (searched "x" [paris]) [] Hstatus).
Defined.

Lemma handleResetComplete_success_idle_witness :
  status reset_done = "success"
  ∧ (searchTerm (searched "x" []) = EmptyString
     ∨ memories (searched "x" []) = [])
  ∧ ∃ timer,
      handleResetComplete print_small reset_done online (searched "x" []) []
      = (Returned [timer],
         state_with_resetMessage (searched "x" [])
           (Some "Reset 5 memories successfully!"),
         [])
      ∧ delay_ms timer = 3000%N
      ∧ ∀ env' st' log',
          on_fire timer env' st' log'
          = (Returned (), state_with_resetMessage st' None, log').
Proof.
  split; [reflexivity |]. split; [by right |].
  exact (handleResetComplete_success_idle print_small reset_done online
           (searched "x" []) [] eq_refl (or_intror eq_refl)).
Defined.

Lemma handleResetComplete_success_refreshes_witness :
  status reset_done = "success"
  ∧ all_white_space (searchTerm (searched "paris" [nowhere])) = false
  ∧ memories (searched "paris" [nowhere]) ≠ []
  ∧ url_session online = Some "s1"
  ∧ str_truthy "s1" = true
  ∧ backend_search online (GetSearch "s1" "paris" User ByWeight)
    = inr [paris; oslo]
  ∧ ∃ timer st',
      handleResetComplete print_small reset_done online
        (searched "paris" [nowhere]) []
      = (Returned [timer], st', [GetSearch "s1" "paris" User ByWeight])
      ∧ memories st' = [paris; oslo]
      ∧ resetMessage st' = Some "Reset 5 memories successfully!"
      ∧ error st' = None
      ∧ delay_ms timer = 3000%N.
Proof.
  assert (Hstore : memories (searched "paris" [nowhere]) ≠ [])
    by discriminate.
  do 2 (split; [reflexivity |]). split; [exact Hstore |].
  do 3 (split; [reflexivity |]).
  exact (handleResetComplete_success_refreshes print_small reset_done online
           (searched "paris" [nowhere]) [] "s1" [paris; oslo]
           eq_refl eq_refl Hstore eq_refl eq_refl eq_refl).
Defined.

Lemma handleResetComplete_blank_term_witness :
  status reset_done = "success"
  ∧ searchTerm (searched "  " [nowhere]) ≠ EmptyString
  ∧ all_white_space (searchTerm (searched "  " [nowhere])) = true
  ∧ memories (searched "  " [nowhere]) ≠ []
  ∧ ∃ timer st',
      handleResetComplete print_small reset_done online
        (searched "  " [nowhere]) []
      = (Returned [timer], st', [])
      ∧ memories st' = [nowhere]
      ∧ resetMessage st' = Some "Reset 5 memories successfully!"
      ∧ error st' = Some "Please enter a search term".
Proof.
  assert (Hterm : searchTerm (searched "  " [nowhere]) ≠ EmptyString)
    by discriminate.
  assert (Hstore : memories (searched "  " [nowhere]) ≠ []) by discriminate.
  split; [reflexivity |]. split; [exact Hterm |]. split; [reflexivity |].
  split; [exact Hstore |].
  exact (handleResetComplete_blank_term print_small reset_done online
           (searched "  " [nowhere]) [] eq_refl Hterm eq_refl Hstore).
Defined.

Example getThumbnailUrl_samples :
  getThumbnailUrl None no_session with_image
    = "http://localhost:8000/img/lake.jpg"
  ∧ getThumbnailUrl (Some "https://api.example") online with_image
    = "https://api.example/img/lake.jpg"
  ∧ getThumbnailUrl (Some EmptyString) online with_image
    = "http://localhost:8000/img/lake.jpg".
Proof. repeat split; reflexivity. Qed.

(** * The keyword extraction of the earlier revision *)

Lemma legacy_keyword_callbacks (kw : value) :
  kw ≠ VNull → kw ≠ VUndefined → is_string kw = false →
  Legacy.keyword_filter kw = keyword_filter kw
  ∧ (keyword_filter kw = Some true → Legacy.keyword_map kw = keyword_map kw).
Proof.
  intros Hnull Hundef Hstr.
  destruct kw as [| |b|n|s|items|props]; try done; simpl.
  - unfold keyword_filter. simpl. by destruct b.
  - unfold keyword_filter. simpl. by destruct (num_truthy n).
Qed.

Lemma Array_filter_agree {A} (f g : A → option bool) (l : list A) :
  (∀ x, x ∈ l → f x = g x) → Array_filter f l = Array_filter g l.
Proof.
  induction l as [|x l IH]; intros Hfg; simpl; [done |].
  rewrite (Hfg x) by (by left).
  by rewrite IH by (intros y Hy; apply Hfg; by right).
Qed.

Lemma Array_filter_kept {A} (f : A → option bool) (l kept : list A) (x : A) :
  Array_filter f l = Some kept → x ∈ kept → x ∈ l ∧ f x = Some true.
Proof.
  revert kept. induction l as [|y l IH]; intros kept; simpl.
  - intros [= <-] Hx. by apply elem_of_nil in Hx.
  - destruct (f y) as [keep|] eqn:Hy; simpl; [| done].
    destruct (Array_filter f l) as [rest|]; simpl; [| done].
    intros [= <-] Hx. destruct keep.
    + apply elem_of_cons in Hx as [-> | Hx]; [split; [by left | done] |].
      destruct (IH rest eq_refl Hx). split; [by right | done].
    + destruct (IH rest eq_refl Hx). split; [by right | done].
Qed.

Lemma mapM_agree {A B} (f g : A → option B) (l : list A) :
  (∀ x, x ∈ l → f x = g x) → mapM f l = mapM g l.
Proof.
  induction l as [|x l IH]; intros Hfg; simpl; [done |].
  rewrite (Hfg x) by (by left).
  by rewrite IH by (intros y Hy; apply Hfg; by right).
Qed.

(** On a keyword list without null, undefined and plain-string entries the
    earlier revision extracts the keywords the current one extracts. *)
Theorem legacy_extract_keywords_agrees (items : list value) :
  (∀ kw, kw ∈ items →
     kw ≠ VNull ∧ kw ≠ VUndefined ∧ is_string kw = false) →
  Legacy.extract_keywords (VArray items) = extract_keywords items.
Proof.
  intros Hitems. unfold Legacy.extract_keywords, extract_keywords.
  rewrite (Array_filter_agree Legacy.keyword_filter keyword_filter items).
  - destruct (Array_filter keyword_filter items) as [kept|] eqn:Hkept;
      simpl; [| done].
    apply mapM_agree. intros kw Hkw.
    destruct (Array_filter_kept _ _ _ _ Hkept Hkw) as [Hin Hkeep].
    destruct (Hitems kw Hin) as (Hnull & Hundef & Hstr).
    by apply legacy_keyword_callbacks.
  - intros kw Hin. destruct (Hitems kw Hin) as (Hnull & Hundef & Hstr).
    by apply legacy_keyword_callbacks.
Qed.

Lemma legacy_extract_keywords_agrees_witness :
  (∀ kw, kw ∈ drop 3 story_keywords →
     kw ≠ VNull ∧ kw ≠ VUndefined ∧ is_string kw = false)
  ∧ Legacy.extract_keywords (VArray (drop 3 story_keywords))
    = extract_keywords (drop 3 story_keywords)
  ∧ extract_keywords (drop 3 story_keywords)
    = Some [VString "dog"; VUndefined].
Proof.
  assert (Hitems : ∀ kw, kw ∈ drop 3 story_keywords →
                     kw ≠ VNull ∧ kw ≠ VUndefined ∧ is_string kw = false).
  { intros kw Hin. simpl in Hin.
    repeat (apply elem_of_cons in Hin as [-> | Hin]; [by repeat split |]).
    by apply elem_of_nil in Hin. }
  split; [exact Hitems |].
  split; [| reflexivity].
  exact (legacy_extract_keywords_agrees (drop 3 story_keywords) Hitems).
Defined.

Lemma Array_filter_throws {A} (f : A → option bool) (l : list A) (x : A) :
  x ∈ l → f x = None → Array_filter f l = None.
Proof.
  induction l as [|y l IH]; intros Hin Hx; [by apply elem_of_nil in Hin |].
  simpl. apply elem_of_cons in Hin as [<- | Hin]; [by rewrite Hx |].
  rewrite (IH Hin Hx). by destruct (f y).
Qed.

(** The earlier revision throws on a keyword list that holds a null or an
    undefined entry, and on a [keywords] that is not a list; the current
    revision extracts from the same list without throwing. *)
Theorem legacy_extract_keywords_throws (keywords : value) :
  (∀ items, keywords = VArray items →
     ∃ kw, kw ∈ items ∧ (kw = VNull ∨ kw = VUndefined)) →
  Legacy.extract_keywords keywords = None
  ∧ ∀ items, keywords = VArray items → is_Some (extract_keywords items).
Proof.
  intros Hbad. split.
  - destruct keywords as [| |b|n|s|items|props]; try done. simpl.
    destruct (Hbad items eq_refl) as (kw & Hin & Hkw).
    rewrite (Array_filter_throws Legacy.keyword_filter items kw); try done.
    by destruct Hkw as [-> | ->].
  - intros items _. rewrite extract_keywords_contributions. by eexists.
Qed.

Lemma legacy_extract_keywords_throws_witness :
  (∀ items, VArray story_keywords = VArray items →
     ∃ kw, kw ∈ items ∧ (kw = VNull ∨ kw = VUndefined))
  ∧ Legacy.extract_keywords (VArray story_keywords) = None
  ∧ ∀ items, VArray story_keywords = VArray items →
      is_Some (extract_keywords items).
Proof.
  assert (Hbad : ∀ items, VArray story_keywords = VArray items →
                   ∃ kw, kw ∈ items ∧ (kw = VNull ∨ kw = VUndefined)).
  { intros items [= <-]. exists VNull. split; [| by left].
    do 2 right. by left. }
  split; [exact Hbad |].
  exact (legacy_extract_keywords_throws (VArray story_keywords) Hbad).
Defined.
